(** * Retrieval core of the shopping assistant (ai_agent/rag_logic.py)

    A shallow embedding of [SimpleRAG] (keyword index, relevance scoring,
    criteria filter) and of [analyze_query_intent], with the properties of
    the retrieval specification stated and proved over it.

    Modelling conventions.
    - Text is [string]; the character classes and case mapping are those of
      the ASCII range (a character outside it is neither a word character
      nor a digit, and has no case).
    - A field of a product dictionary is absent, [None], or a string: the
      scraper (ai_scraper/scraper.py, [extract_product_info]) stores
      [clean_text(...)], which is [None] or a non-empty string.
    - Numbers ([int], [float]) are their exact values: a rational, an
      infinity, or NaN.  [float(text)] rounds a decimal literal to the
      nearest binary64 value, ties to even.
    - An operation that can raise returns a [result]. *)

From Stdlib Require Import String Ascii ZArith QArith List Lia Bool.
From stdpp Require Import gmap strings list fin_maps pretty.

Open Scope string_scope.
Open Scope list_scope.
Open Scope nat_scope.

(** ** Python text primitives *)

Definition is_digit (c : ascii) : bool :=
  let n := nat_of_ascii c in (48 <=? n) && (n <=? 57).

Definition is_upper (c : ascii) : bool :=
  let n := nat_of_ascii c in (65 <=? n) && (n <=? 90).

Definition is_lower (c : ascii) : bool :=
  let n := nat_of_ascii c in (97 <=? n) && (n <=? 122).

(** [\w]: letters, digits and the underscore. *)
Definition is_word (c : ascii) : bool :=
  is_digit c || is_upper c || is_lower c || (nat_of_ascii c =? 95).

Definition lower_char (c : ascii) : ascii :=
  if is_upper c then ascii_of_nat (nat_of_ascii c + 32) else c.

(** [s.lower()] *)
Fixpoint str_lower (s : string) : string :=
  match s with
  | EmptyString => EmptyString
  | String c s' => String (lower_char c) (str_lower s')
  end.

(** [sub in s] on strings: [sub] occurs in [s] as a contiguous substring. *)
Fixpoint str_contains (sub s : string) : bool :=
  if String.prefix sub s then true
  else match s with
       | EmptyString => false
       | String _ s' => str_contains sub s'
       end.

(** [any(word in s for word in phrases)] *)
Definition any_in (phrases : list string) (s : string) : bool :=
  existsb (fun word => str_contains word s) phrases.

(** [s.replace(',', '')] *)
Fixpoint remove_commas (s : string) : string :=
  match s with
  | EmptyString => EmptyString
  | String c s' =>
      if Ascii.eqb c "," then remove_commas s' else String c (remove_commas s')
  end.

(** [' '.join(parts)] *)
Fixpoint join_space (parts : list string) : string :=
  match parts with
  | [] => EmptyString
  | [p] => p
  | p :: rest => p +:+ " " +:+ join_space rest
  end.

(** [re.findall(r'\b\w+\b', s)]: the maximal runs of word characters of
    [s], left to right.  [cur] is the run being read. *)
Fixpoint findall_words_from (cur : string) (s : string) : list string :=
  match s with
  | EmptyString => if String.eqb cur "" then [] else [cur]
  | String c s' =>
      if is_word c then findall_words_from (cur +:+ String c "") s'
      else (if String.eqb cur "" then [] else [cur]) ++ findall_words_from "" s'
  end.

Definition findall_words (s : string) : list string := findall_words_from "" s.

(** The longest prefix of [s] whose characters satisfy [f], and the rest. *)
Fixpoint span (f : ascii -> bool) (s : string) : string * string :=
  match s with
  | EmptyString => (EmptyString, EmptyString)
  | String c s' =>
      if f c then let '(a, b) := span f s' in (String c a, b)
      else (EmptyString, s)
  end.

(** A match of [head+\.?\d*] anchored at the start of [s], where [head] is
    the character class of the first run.  Every later part is optional and
    greedy, so the match never backtracks. *)
Definition match_number_here (head : ascii -> bool) (s : string) : option string :=
  let '(run, rest) := span head s in
  if String.eqb run "" then None
  else match rest with
       | String "." rest' => Some (run +:+ "." +:+ fst (span is_digit rest'))
       | _ => Some run
       end.

(** [re.search] of such a pattern: the leftmost position with a match. *)
Fixpoint search_number (head : ascii -> bool) (s : string) : option string :=
  match match_number_here head s with
  | Some m => Some m
  | None => match s with
            | EmptyString => None
            | String _ s' => search_number head s'
            end
  end.

Definition is_digit_or_comma (c : ascii) : bool := is_digit c || Ascii.eqb c ",".

(** [re.search] of the price pattern, a run of digits or commas, an
    optional dot and further digits; the matched text. *)
Definition search_price_number : string -> option string :=
  search_number is_digit_or_comma.

(** [re.search] of the rating pattern, a digit run, an optional dot and
    further digits; the matched text. *)
Definition search_rating_number : string -> option string :=
  search_number is_digit.

(** [re.search(prefix + r'\$?(\d+)', s)], group 1: the leftmost place where
    [prefix], an optional dollar sign and a digit follow one another; the
    group is the whole run of digits there. *)
Definition match_amount_here (prefix s : string) : option string :=
  if String.prefix prefix s then
    let rest := String.substring (String.length prefix)
                  (String.length s - String.length prefix) s in
    let digits_at t := let run := fst (span is_digit t) in
                       if String.eqb run "" then None else Some run in
    match rest with
    | String "$" rest' =>
        match digits_at rest' with
        | Some d => Some d
        | None => digits_at rest
        end
    | _ => digits_at rest
    end
  else None.

Fixpoint search_amount (prefix s : string) : option string :=
  match match_amount_here prefix s with
  | Some d => Some d
  | None => match s with
            | EmptyString => None
            | String _ s' => search_amount prefix s'
            end
  end.

(** ** Python numbers *)

(** The value of an [int] or a [float]. *)
Inductive num : Type :=
  | Fin (q : Q)
  | PosInf
  | NegInf
  | NaN.

Definition Qltb (a b : Q) : bool := (Qnum a * QDen b <? Qnum b * QDen a)%Z.

(** [a < b]; every comparison with NaN is false. *)
Definition num_lt (a b : num) : bool :=
  match a, b with
  | NaN, _ | _, NaN => false
  | Fin x, Fin y => Qltb x y
  | _, NegInf => false
  | NegInf, _ => true
  | PosInf, _ => false
  | Fin _, PosInf => true
  end.

(** [a > b] *)
Definition num_gt (a b : num) : bool := num_lt b a.

(** [a <= b] *)
Definition num_le (a b : num) : bool :=
  match a, b with
  | NaN, _ | _, NaN => false
  | Fin x, Fin y => Qle_bool x y
  | NegInf, _ => true
  | _, PosInf => true
  | _, _ => false
  end.

Definition digit_value (c : ascii) : Z := Z.of_nat (nat_of_ascii c - 48).

Fixpoint digits_value (acc : Z) (s : string) : Z :=
  match s with
  | EmptyString => acc
  | String c s' => digits_value (10 * acc + digit_value c) s'
  end.

(** The decimal literals the patterns above can hand to [float]: digits,
    then optionally a dot and further digits.  The result is the numerator
    and the number of fraction digits.  Any other text of those patterns
    holds a comma, which [float] rejects. *)
Definition parse_decimal (s : string) : option (Z * Z) :=
  let '(whole, rest) := span is_digit s in
  if String.eqb whole "" then None
  else match rest with
       | EmptyString => Some (digits_value 0 whole, 0%Z)
       | String "." frac =>
           let '(fd, rest') := span is_digit frac in
           if String.eqb rest' ""
           then Some (digits_value 0 (whole +:+ fd), Z.of_nat (String.length fd))
           else None
       | _ => None
       end.

Definition round_half_even (n d : Z) : Z :=
  let q := (n / d)%Z in
  match (2 * (n mod d) ?= d)%Z with
  | Lt => q
  | Gt => (q + 1)%Z
  | Eq => if Z.even q then q else (q + 1)%Z
  end.

(** The binary64 value nearest to [n / d] for [0 <= n] and [0 < d]: 53
    significant bits, least exponent -1074, overflow to infinity. *)
Definition binary64_of_ratio (n d : Z) : num :=
  if (n =? 0)%Z then Fin 0
  else
    let e0 := (Z.log2 n - Z.log2 d)%Z in
    let e := if (n * 2 ^ Z.max 0 (- e0) <? d * 2 ^ Z.max 0 e0)%Z
             then (e0 - 1)%Z else e0 in
    let ex := Z.max (e - 52) (-1074) in
    let m := round_half_even (n * 2 ^ Z.max 0 (- ex)) (d * 2 ^ Z.max 0 ex) in
    if (0 <=? ex)%Z then
      if (2 ^ 1024 <=? m * 2 ^ ex)%Z then PosInf else Fin (inject_Z (m * 2 ^ ex))
    else Fin (m # Z.to_pos (2 ^ (- ex))).

(** [float(s)]; [None] stands for [ValueError]. *)
Definition float_of_string (s : string) : option num :=
  match parse_decimal s with
  | Some (n, k) => Some (binary64_of_ratio n (10 ^ k))
  | None => None
  end.

(** ** Exceptions *)

Inductive exn : Type := AttributeError | TypeError | ValueError | IndexError.

Inductive result (A : Type) : Type :=
  | Ok (a : A)
  | Raise (e : exn).

Arguments Ok {A} a.
Arguments Raise {A} e.

#[global] Instance result_ret : MRet result := fun A a => Ok a.

#[global] Instance result_bind : MBind result := fun A B k r =>
  match r with
  | Ok a => k a
  | Raise e => Raise e
  end.

Definition returns {A : Type} (r : result A) : Prop := exists a, r = Ok a.

(** ** Product records *)

(** The value stored under one of the five text keys of a product
    dictionary. *)
Inductive field : Type :=
  | Missing
  | PyNone
  | PyStr (s : string).

Record product : Type := Product {
  name : field;
  price : field;
  rating : field;
  description : field;
  availability : field
}.

(** [product.get(key, '')] *)
Definition get_or_empty (f : field) : field :=
  match f with
  | Missing => PyStr ""
  | _ => f
  end.

(** The strings that [filter(None, text_fields)] keeps: [None] and the
    empty string are falsy. *)
Definition truthy_text (f : field) : option string :=
  match f with
  | PyStr s => if String.eqb s "" then None else Some s
  | _ => None
  end.

(** A dictionary returned by the retrieval: the product's keys and, on an
    annotated copy, [relevance_score]. *)
Record scored_product : Type := Scored {
  record : product;
  relevance_score : option nat
}.

(** ** SimpleRAG: the inverted index *)

(** The five text fields of a product, joined and lower-cased. *)
Definition combined_text (p : product) : string :=
  let text_fields :=
    [ get_or_empty (name p); get_or_empty (description p);
      get_or_empty (price p); get_or_empty (rating p);
      get_or_empty (availability p) ] in
  str_lower (join_space (omap truthy_text text_fields)).

Definition words_of (p : product) : list string := findall_words (combined_text p).

(** The body of the loop over [words]: a word longer than two characters
    gets [i] appended to its list, which starts empty. *)
Definition index_word (i : nat) (keyword_index : gmap string (list nat))
    (word : string) : gmap string (list nat) :=
  if 2 <? String.length word
  then <[word := default [] (keyword_index !! word) ++ [i]]> keyword_index
  else keyword_index.

(** The loop over [enumerate(self.products)], from position [i] on. *)
Fixpoint index_products (i : nat) (products : list product)
    (keyword_index : gmap string (list nat)) : gmap string (list nat) :=
  match products with
  | [] => keyword_index
  | p :: rest =>
      index_products (S i) rest (fold_left (index_word i) (words_of p) keyword_index)
  end.

Definition extract_keywords (products : list product) : gmap string (list nat) :=
  index_products 0 products ∅.

Record rag : Type := Rag {
  products : list product;
  keywords : gmap string (list nat)
}.

(** [SimpleRAG(products)] *)
Definition SimpleRAG (products : list product) : rag :=
  {| products := products; keywords := extract_keywords products |}.

(** ** SimpleRAG: relevance scoring *)

(** A [Counter] keeps its keys in the order of their first insertion. *)
Fixpoint counter_incr (c : list (nat * nat)) (k : nat) : list (nat * nat) :=
  match c with
  | [] => [(k, 1)]
  | (k', v) :: c' =>
      if k' =? k then (k', S v) :: c' else (k', v) :: counter_incr c' k
  end.

Fixpoint counter_get (c : list (nat * nat)) (k : nat) : nat :=
  match c with
  | [] => 0
  | (k', v) :: c' => if k' =? k then v else counter_get c' k
  end.

(** The body of the loop over [query_words]. *)
Definition score_word (keywords : gmap string (list nat))
    (product_scores : list (nat * nat)) (word : string) : list (nat * nat) :=
  match keywords !! word with
  | Some postings => fold_left counter_incr postings product_scores
  | None => product_scores
  end.

Definition accumulate_scores (keywords : gmap string (list nat))
    (query_words : list string) : list (nat * nat) :=
  fold_left (score_word keywords) query_words [].

(** Insertion into a list ordered by descending count, after the entries
    of greater count and before those of equal or smaller count. *)
Fixpoint insert_desc (x : nat * nat) (l : list (nat * nat)) : list (nat * nat) :=
  match l with
  | [] => [x]
  | y :: l' => if snd x <? snd y then y :: insert_desc x l' else x :: y :: l'
  end.

(** [sorted(items, key=itemgetter(1), reverse=True)]: a stable sort. *)
Definition sorted_desc (items : list (nat * nat)) : list (nat * nat) :=
  foldr insert_desc [] items.

(** [Counter.most_common(n)]: the [n] entries of highest count, highest
    first, entries of equal count in insertion order; nothing when [n] is
    not positive. *)
Definition most_common (n : Z) (c : list (nat * nat)) : list (nat * nat) :=
  if (n <=? 0)%Z then [] else take (Z.to_nat n) (sorted_desc c).

(** [l[:k]]: a negative [k] counts from the end. *)
Definition slice_to (A : Type) (l : list A) (k : Z) : list A :=
  if (0 <=? k)%Z then take (Z.to_nat k) l
  else take (length l - Z.to_nat (- k)) l.

Arguments slice_to {A} l k.

(** [self.products[product_idx]] *)
Definition product_at (products : list product) (product_idx : nat) : result product :=
  match products !! product_idx with
  | Some p => Ok p
  | None => Raise IndexError
  end.

(** The loop that copies and annotates the selected products. *)
Fixpoint annotate (products : list product) (top : list (nat * nat))
    : result (list scored_product) :=
  match top with
  | [] => Ok []
  | (product_idx, score) :: top' =>
      p ← product_at products product_idx;
      rest ← annotate products top';
      Ok ({| record := p; relevance_score := Some score |} :: rest)
  end.

Definition unannotated (p : product) : scored_product :=
  {| record := p; relevance_score := None |}.

(** The [(product_idx, score)] pairs the result is built from. *)
Definition ranking (self : rag) (query : string) (top_k : Z) : list (nat * nat) :=
  let query_words := findall_words (str_lower query) in
  most_common top_k (accumulate_scores (keywords self) query_words).

Definition retrieve_relevant_products (self : rag) (query : string) (top_k : Z)
    : result (list scored_product) :=
  top_products ← annotate (products self) (ranking self query top_k);
  match top_products with
  | [] => Ok (map unannotated (slice_to (products self) top_k))
  | _ => Ok top_products
  end.

(** [simple_retrieve(products, user_query)] *)
Definition simple_retrieve (products : list product) (user_query : string)
    : result (list scored_product) :=
  match products with
  | [] => Ok []
  | _ => retrieve_relevant_products (SimpleRAG products) user_query 5
  end.

(** ** SimpleRAG: the criteria filter *)

Record criteria : Type := Criteria {
  min_price : option num;
  max_price : option num;
  min_rating : option num;
  available_only : option bool
}.

(** ['key' in criteria] *)
Definition has_key {A : Type} (entry : option A) : bool :=
  match entry with
  | Some _ => true
  | None => false
  end.

(** The receiver of a [str] method: [None] has no such attribute. *)
Definition as_receiver (f : field) : result string :=
  match get_or_empty f with
  | PyStr s => Ok s
  | _ => Raise AttributeError
  end.

(** The text argument of [re.search]: [None] is not a string. *)
Definition as_subject (f : field) : result string :=
  match get_or_empty f with
  | PyStr s => Ok s
  | _ => Raise TypeError
  end.

Definition to_float (s : string) : result num :=
  match float_of_string s with
  | Some x => Ok x
  | None => Raise ValueError
  end.

Definition below (bound : option num) (x : num) : bool :=
  match bound with
  | Some b => num_lt x b
  | None => false
  end.

Definition above (bound : option num) (x : num) : bool :=
  match bound with
  | Some b => num_gt x b
  | None => false
  end.

(** Each block receives the flag [matches_criteria] and returns its new
    value. *)
Definition price_block (c : criteria) (p : product) (matches_criteria : bool)
    : result bool :=
  if has_key (min_price c) || has_key (max_price c) then
    price_text ← as_receiver (price p);
    match search_price_number (remove_commas price_text) with
    | Some m =>
        x ← to_float m;
        Ok (matches_criteria && negb (below (min_price c) x)
                             && negb (above (max_price c) x))
    | None => Ok false
    end
  else Ok matches_criteria.

Definition rating_block (c : criteria) (p : product) (matches_criteria : bool)
    : result bool :=
  if has_key (min_rating c) then
    rating_text ← as_subject (rating p);
    match search_rating_number rating_text with
    | Some m =>
        x ← to_float m;
        Ok (matches_criteria && negb (below (min_rating c) x))
    | None => Ok false
    end
  else Ok matches_criteria.

Definition availability_block (c : criteria) (p : product) (matches_criteria : bool)
    : result bool :=
  match available_only c with
  | Some true =>
      text ← as_receiver (availability p);
      let availability := str_lower text in
      if str_contains "out of stock" availability
         || str_contains "unavailable" availability
      then Ok false
      else Ok matches_criteria
  | _ => Ok matches_criteria
  end.

(** The body of the loop over [self.products]: the final value of
    [matches_criteria]. *)
Definition matches (c : criteria) (p : product) : result bool :=
  m1 ← price_block c p true;
  m2 ← rating_block c p m1;
  availability_block c p m2.

Fixpoint filter_loop (c : criteria) (products : list product)
    (filtered_products : list product) : result (list product) :=
  match products with
  | [] => Ok filtered_products
  | p :: rest =>
      matches_criteria ← matches c p;
      filter_loop c rest
        (if matches_criteria : bool then filtered_products ++ [p]
         else filtered_products)
  end.

Definition filter_by_criteria (self : rag) (c : criteria) : result (list product) :=
  filter_loop c (products self) [].

(** ** analyze_query_intent *)

Inductive sort_order : Type := price_asc | price_desc | rating_desc | rating_asc.

(** The intent dictionary: each key is present or not. *)
Record intent : Type := Intent {
  sort_by : option sort_order;
  intent_available_only : option bool;
  intent_max_price : option num;
  intent_min_price : option num
}.

Definition cheap_phrases : list string := ["cheap"; "cheapest"; "lowest price"; "budget"].
Definition expensive_phrases : list string := ["expensive"; "highest price"; "premium"].
Definition best_phrases : list string := ["best"; "highest rated"; "top rated"; "best rating"].
Definition worst_phrases : list string := ["worst"; "lowest rated"; "poor rating"].
Definition available_phrases : list string := ["available"; "in stock"; "buy now"].

(** [sort_by] after the price-related tests. *)
Definition price_intent (query_lower : string) : option sort_order :=
  if any_in cheap_phrases query_lower then Some price_asc
  else if any_in expensive_phrases query_lower then Some price_desc
  else None.

(** [sort_by] after the rating-related tests, which assign the same key. *)
Definition rating_intent (query_lower : string) (sort_by : option sort_order)
    : option sort_order :=
  if any_in best_phrases query_lower then Some rating_desc
  else if any_in worst_phrases query_lower then Some rating_asc
  else sort_by.

(** A price bound: the number after [prefix], when the pattern matches. *)
Definition price_bound (prefix query_lower : string) : result (option num) :=
  match search_amount prefix query_lower with
  | Some digits => x ← to_float digits; Ok (Some x)
  | None => Ok None
  end.

Definition analyze_query_intent (query : string) : result intent :=
  let query_lower := str_lower query in
  let sort := rating_intent query_lower (price_intent query_lower) in
  let avail := if any_in available_phrases query_lower then Some true else None in
  max ← price_bound "under " query_lower;
  min ← price_bound "over " query_lower;
  Ok {| sort_by := sort; intent_available_only := avail;
        intent_max_price := max; intent_min_price := min |}.

(** ** ai_scraper/utils.py: text cleaning and number extraction *)

(** [\s] and [str.isspace] on the ASCII range: tab to carriage return,
    the four separators 28 to 31, and the space. *)
Definition is_space (c : ascii) : bool :=
  let n := nat_of_ascii c in
  ((9 <=? n) && (n <=? 13)) || ((28 <=? n) && (n <=? 32)).

(** [re.sub(r'\s+', ' ', text)]: every maximal run of whitespace becomes
    one space.  [in_run] tells that the previous character was whitespace. *)
Fixpoint collapse_from (in_run : bool) (s : string) : string :=
  match s with
  | EmptyString => EmptyString
  | String c s' =>
      if is_space c
      then if in_run then collapse_from true s'
           else String " " (collapse_from true s')
      else String c (collapse_from false s')
  end.

Definition collapse_spaces (s : string) : string := collapse_from false s.

Fixpoint lstrip (s : string) : string :=
  match s with
  | EmptyString => EmptyString
  | String c s' => if is_space c then lstrip s' else s
  end.

Fixpoint rstrip (s : string) : string :=
  match s with
  | EmptyString => EmptyString
  | String c s' =>
      let r := rstrip s' in
      if is_space c && String.eqb r "" then EmptyString else String c r
  end.

(** [s.strip()] *)
Definition strip (s : string) : string := rstrip (lstrip s).

(** The characters that the second substitution of [clean_text] keeps,
    on the ASCII range: word characters, whitespace and [. - $ % ( )].
    The pattern also names the euro and the pound sign, and Python's word
    and whitespace classes reach beyond ASCII (an accented letter is kept,
    a no-break space counts as whitespace).  Those characters have no
    counterpart here: [clean_text] below is the function on texts of ASCII
    characters, and what is proved of the characters of its result is
    proved of such texts only. *)
Definition is_kept (c : ascii) : bool :=
  is_word c || is_space c
  || existsb (Ascii.eqb c) ["."; "-"; "$"; "%"; "("; ")"]%char.

Fixpoint keep_chars (f : ascii -> bool) (s : string) : string :=
  match s with
  | EmptyString => EmptyString
  | String c s' => if f c then String c (keep_chars f s') else keep_chars f s'
  end.

(** [clean_text(text)]; the argument and the result are [None] or a
    string. *)
Definition clean_text (text : option string) : option string :=
  match text with
  | None => None
  | Some t =>
      if String.eqb t "" then None
      else
        let t1 := strip (collapse_spaces t) in
        let t2 := keep_chars is_kept t1 in
        if String.eqb t2 "" then None else Some t2
  end.

(** [extract_price(price_text)] *)
Definition extract_price (price_text : option string) : result (option num) :=
  match price_text with
  | None => Ok None
  | Some t =>
      if String.eqb t "" then Ok None
      else match search_price_number (remove_commas t) with
           | Some m => x ← to_float m; Ok (Some x)
           | None => Ok None
           end
  end.

(** [extract_rating(rating_text)] *)
Definition extract_rating (rating_text : option string) : result (option num) :=
  match rating_text with
  | None => Ok None
  | Some t =>
      if String.eqb t "" then Ok None
      else match search_rating_number t with
           | Some m => x ← to_float m; Ok (Some x)
           | None => Ok None
           end
  end.

(** ** ai_scraper/scraper.py: from the parsed page to product records *)

Definition field_of (text : option string) : field :=
  match text with
  | None => PyNone
  | Some s => PyStr s
  end.

(** The truth value of a field: [None] and the empty string are falsy. *)
Definition truthy (f : field) : bool := has_key (truthy_text f).

Definition quote : string := String (ascii_of_nat 34) EmptyString.

(** The attribute selector [[data-testid*=...]] with its quoted word. *)
Definition testid (word : string) : string :=
  "[data-testid*=" +:+ quote +:+ word +:+ quote +:+ "]".

Definition product_selectors : list string :=
  [".product-card"; ".product-item"; ".product"; ".item"; testid "product";
   ".s-result-item"; ".product-tile"; ".product-box"].

Definition name_selectors : list string :=
  [".product-title"; ".item-title"; ".product-name"; "h2"; "h3"; testid "title";
   ".title"].

Definition price_selectors : list string :=
  [".price"; ".product-price"; ".cost"; testid "price"; ".price-current";
   ".sale-price"; ".offer-price"].

Definition rating_selectors : list string :=
  [".rating"; ".product-rating"; ".stars"; testid "rating"; ".review-score";
   ".star-rating"].

Definition desc_selectors : list string :=
  [".description"; ".product-desc"; ".summary"; ".product-details";
   ".item-description"].

Definition avail_selectors : list string :=
  [".availability"; ".in-stock"; ".stock-status"; testid "availability";
   ".inventory-status"].

Section Scraper.

(** The parsed page and its elements belong to the HTML library.  What the
    scraper asks of them is taken as given: [select page selector] is
    [soup.select(selector)], and [select_one_text parent selector] is the
    text [get_text(strip=True)] of [parent.select_one(selector)], [None]
    when no element matches. *)
Variables (soup card : Type).
Variable select : soup -> string -> list card.
Variable select_one_text : card -> string -> option string.

(** [find_element_text(parent, selectors)]: the text of the first selector
    that finds an element with a non-empty text. *)
Fixpoint find_element_text (parent : card) (selectors : list string)
    : option string :=
  match selectors with
  | [] => None
  | selector :: rest =>
      match select_one_text parent selector with
      | Some text =>
          if String.eqb text "" then find_element_text parent rest else Some text
      | None => find_element_text parent rest
      end
  end.

Definition extract_product_info (c : card) : product :=
  {| name := field_of (clean_text (find_element_text c name_selectors));
     price := field_of (clean_text (find_element_text c price_selectors));
     rating := field_of (clean_text (find_element_text c rating_selectors));
     description := field_of (clean_text (find_element_text c desc_selectors));
     availability := field_of (clean_text (find_element_text c avail_selectors)) |}.

(** The loop over [product_selectors]: the elements of the first selector
    that finds any. *)
Fixpoint select_products (page : soup) (selectors : list string) : list card :=
  match selectors with
  | [] => []
  | selector :: rest =>
      match select page selector with
      | [] => select_products page rest
      | elements => elements
      end
  end.

(** [ProductScraper.scrape_products] from the parsed page on: the first
    twenty elements, each turned into a record, kept when its name is
    truthy.  Loading the page, and the handler that answers any exception
    with the empty list, come before and around this part. *)
Definition scrape_products (page : soup) : list product :=
  List.filter (fun product => truthy (name product))
    (map extract_product_info (take 20 (select_products page product_selectors))).

End Scraper.

Arguments find_element_text {card} select_one_text parent selectors.
Arguments extract_product_info {card} select_one_text c.
Arguments select_products {soup card} select page selectors.
Arguments scrape_products {soup card} select select_one_text page.

(** ** ai_agent/llm_query.py: the context text *)

Definition newline : string := String (ascii_of_nat 10) EmptyString.

(** A value inside an f-string, [product.get(key, 'N/A')]: the default for
    an absent key, [str(None)] for [None], the string itself otherwise. *)
Definition show_field (f : field) : string :=
  match f with
  | Missing => "N/A"
  | PyNone => "None"
  | PyStr s => s
  end.

(** [product_info] for the product numbered [i]. *)
Definition product_info (i : nat) (p : product) : string :=
  "Product " +:+ pretty i +:+ ":" +:+ newline
  +:+ "  Name: " +:+ show_field (name p) +:+ newline
  +:+ "  Price: " +:+ show_field (price p) +:+ newline
  +:+ "  Rating: " +:+ show_field (rating p) +:+ newline
  +:+ "  Description: " +:+ show_field (description p) +:+ newline
  +:+ "  Availability: " +:+ show_field (availability p) +:+ newline.

(** [sep.join(parts)] *)
Fixpoint join_with (sep : string) (parts : list string) : string :=
  match parts with
  | [] => EmptyString
  | [p] => p
  | p :: rest => p +:+ sep +:+ join_with sep rest
  end.

(** The loop over [enumerate(products, 1)], from number [i] on. *)
Fixpoint product_infos (i : nat) (products : list product) : list string :=
  match products with
  | [] => []
  | p :: rest => product_info i p :: product_infos (S i) rest
  end.

(** [format_products_for_context(products)]; it reads the five text keys
    of each dictionary. *)
Definition format_products_for_context (products : list product) : string :=
  match products with
  | [] => "No products available."
  | _ => join_with newline (product_infos 1 products)
  end.

(** ** app.py: the context built for a question *)

(** [relevant_products or st.session_state.products], as the list of
    dictionaries handed to the formatter. *)
Definition relevant_or_all (relevant : list scored_product)
    (products : list product) : list product :=
  match relevant with
  | [] => products
  | _ => map record relevant
  end.

(** The handler of the question button up to the context: the intent is
    analysed, the relevant products are retrieved, the context is
    formatted. *)
Definition question_context (products : list product) (query : string)
    : result string :=
  intent ← analyze_query_intent query;
  relevant_products ← simple_retrieve products query;
  Ok (format_products_for_context (relevant_or_all relevant_products products)).

(** * Notions of the specification *)

(** ** Records of the examples *)

Definition widget : product :=
  {| name := PyStr "Widget"; price := PyStr "$10.00"; rating := PyStr "4.5 out of 5";
     description := Missing; availability := PyStr "In Stock" |}.

Definition gadget : product :=
  {| name := PyStr "Gadget"; price := PyStr "$50.00"; rating := PyStr "3.0 out of 5";
     description := Missing; availability := PyStr "Out of Stock" |}.

(** A product whose text names the word twice. *)
Definition sturdy_widget : product :=
  {| name := PyStr "Widget"; price := PyStr "$10.00"; rating := PyNone;
     description := PyStr "A sturdy widget"; availability := PyNone |}.

(** A record as the scraper builds it when the page shows a name and a
    price text only: the other fields are [None]. *)
Definition call_for_price : product :=
  {| name := PyStr "Widget"; price := PyStr "Call for price"; rating := PyNone;
     description := PyNone; availability := PyNone |}.

(** The page shows a name only. *)
Definition unpriced_widget : product :=
  {| name := PyStr "Widget"; price := PyNone; rating := PyNone;
     description := PyNone; availability := PyNone |}.

(** The page shows a name and a price. *)
Definition priced_widget : product :=
  {| name := PyStr "Widget"; price := PyStr "$10.00"; rating := PyNone;
     description := PyNone; availability := PyNone |}.

(** ** Indexed words and postings *)

(** The words that the index keeps: longer than two characters. *)
Definition is_keyword (word : string) : bool := 2 <? String.length word.

Definition keywords_of (p : product) : list string :=
  List.filter is_keyword (words_of p).

(** How often [word] occurs among the indexed words of [p]. *)
Definition occurrences (word : string) (p : product) : nat :=
  count_occ string_dec (keywords_of p) word.

(** The postings of [word] over the products at positions [i], [i+1], ... *)
Fixpoint postings_from (i : nat) (ps : list product) (word : string) : list nat :=
  match ps with
  | [] => []
  | p :: rest => replicate (occurrences word p) i ++ postings_from (S i) rest word
  end.

(** The postings list of [word], the empty list when it is not a key. *)
Definition postings (keyword_index : gmap string (list nat)) (word : string)
    : list nat :=
  default [] (keyword_index !! word).

(** ** Accumulation and ranking *)

(** The positions met while the scores accumulate, each at its first
    occurrence in [l], after those already [seen]. *)
Fixpoint first_seen (seen l : list nat) : list nat :=
  match l with
  | [] => seen
  | x :: l' => first_seen (if bool_decide (x ∈ seen) then seen else seen ++ [x]) l'
  end.

(** The postings lists that a query walks through, in the order of the
    two nested loops. *)
Definition posting_stream (keyword_index : gmap string (list nat))
    (query_words : list string) : list nat :=
  concat (map (postings keyword_index) query_words).

(** [x] stands at an earlier place of [l] than [y]. *)
Definition before {A : Type} (x y : A) (l : list A) : Prop :=
  ∃ i j, i < j ∧ l !! i = Some x ∧ l !! j = Some y.

Definition query_words (query : string) : list string :=
  findall_words (str_lower query).

(** The query tokens, with their repetitions, that match [p]. *)
Definition matched_tokens (query : string) (p : product) : list string :=
  filter (λ w, w ∈ keywords_of p) (query_words query).

(** The number of distinct query tokens that match [p]. *)
Definition distinct_matches (query : string) (p : product) : nat :=
  length (remove_dups (matched_tokens query p)).

(** The number of matched occurrences: every occurrence of a token in the
    query counts once for every occurrence of that token in the record. *)
Definition match_count (query : string) (p : product) : nat :=
  sum_list_with (λ w, occurrences w p) (query_words query).

(** The positions in the order in which the accumulation first meets
    them: query tokens left to right, each postings list in order. *)
Definition encounter_order (self : rag) (query : string) : list nat :=
  first_seen [] (posting_stream (keywords self) (query_words query)).

Definition scores (self : rag) (query : string) : list (nat * nat) :=
  accumulate_scores (keywords self) (query_words query).

(** ** The claims on the scorer as worded *)

(** The bound of claim C1 as the specification words it. *)
Definition score_bounded_by_distinct_matches
    (R : list product) (Q : string) (k : Z) : Prop :=
  ∀ out sp s,
    retrieve_relevant_products (SimpleRAG R) Q k = Ok out →
    sp ∈ out → relevance_score sp = Some s →
    s ≤ distinct_matches Q (record sp).


(** The bound of claim C4 as the specification words it. *)
Definition length_within_bound (R : list product) (Q : string) (k : Z) : Prop :=
  ∃ out, retrieve_relevant_products (SimpleRAG R) Q k = Ok out
         ∧ (Z.of_nat (length out) <= Z.min k (Z.of_nat (length R)))%Z.

(** ** Number texts *)

Fixpoint string_forall (f : ascii → bool) (s : string) : bool :=
  match s with
  | EmptyString => true
  | String c s' => f c && string_forall f s'
  end.

(** [s] is empty or starts with a character outside [f]. *)
Definition stops (f : ascii → bool) (s : string) : Prop :=
  match s with
  | EmptyString => True
  | String c _ => f c = false
  end.

Definition not_comma (c : ascii) : bool := negb (Ascii.eqb c ",").

(** ** Criteria *)

(** The record passes: the loop body returns true. *)
Definition passes (c : criteria) (p : product) : bool :=
  match matches c p with
  | Ok b => b
  | Raise _ => false
  end.

(** No inspected text field of the record is [None]. *)
Definition texts_present (p : product) : Prop :=
  price p ≠ PyNone ∧ rating p ≠ PyNone ∧ availability p ≠ PyNone.

(** [new] is a lower bound at least as high as [old]. *)
Definition raised (old : option num) (new : num) : Prop :=
  match old with
  | Some a => num_le a new = true
  | None => True
  end.

(** [new] is an upper bound at most as high as [old]. *)
Definition lowered (old : option num) (new : num) : Prop :=
  match old with
  | Some a => num_le new a = true
  | None => True
  end.

(** The second criteria tighten one bound of the first. *)
Inductive tightens (c : criteria) : criteria → Prop :=
  | tighten_min_price b :
      raised (min_price c) b →
      tightens c {| min_price := Some b; max_price := max_price c;
                    min_rating := min_rating c; available_only := available_only c |}
  | tighten_max_price b :
      lowered (max_price c) b →
      tightens c {| min_price := min_price c; max_price := Some b;
                    min_rating := min_rating c; available_only := available_only c |}
  | tighten_min_rating b :
      raised (min_rating c) b →
      tightens c {| min_price := min_price c; max_price := max_price c;
                    min_rating := Some b; available_only := available_only c |}
  | tighten_available_only :
      tightens c {| min_price := min_price c; max_price := max_price c;
                    min_rating := min_rating c; available_only := Some true |}.

(** [r1] returns whenever [r2] does, and is true whenever [r2] is. *)
Definition permits_more (r1 r2 : result bool) : Prop :=
  ∀ y2, r2 = Ok y2 → ∃ y1, r1 = Ok y1 ∧ (y2 = true → y1 = true).

(** ** Case of the records' texts *)

Definition lower_field (f : field) : field :=
  match f with
  | PyStr s => PyStr (str_lower s)
  | _ => f
  end.

(** The record with every text lower-cased. *)
Definition lower_product (p : product) : product :=
  {| name := lower_field (name p); price := lower_field (price p);
     rating := lower_field (rating p); description := lower_field (description p);
     availability := lower_field (availability p) |}.

(** ** Criteria, one dimension at a time *)

(** A number that a price or rating text can stand for: not negative, not
    NaN. *)
Definition is_amount (x : num) : Prop :=
  match x with
  | Fin q => (0 <= q)%Q
  | PosInf => True
  | _ => False
  end.

(** The fields of the record that the criteria make the filter read hold
    no [None]. *)
Definition inspected_present (c : criteria) (p : product) : Prop :=
  (has_key (min_price c) || has_key (max_price c) = true → price p ≠ PyNone)
  ∧ (has_key (min_rating c) = true → rating p ≠ PyNone)
  ∧ (available_only c = Some true → availability p ≠ PyNone).

Definition price_only (c : criteria) : criteria :=
  {| min_price := min_price c; max_price := max_price c;
     min_rating := None; available_only := None |}.

Definition rating_only (c : criteria) : criteria :=
  {| min_price := None; max_price := None;
     min_rating := min_rating c; available_only := None |}.

Definition availability_only (c : criteria) : criteria :=
  {| min_price := None; max_price := None;
     min_rating := None; available_only := available_only c |}.

(** ** Cleaned text *)

(** A text of ASCII characters. *)
Definition is_ascii_char (c : ascii) : bool := nat_of_ascii c <? 128.

Definition ascii_text (s : string) : bool := string_forall is_ascii_char s.

(** The characters of a cleaned ASCII text: word characters, the plain
    space, and [. - $ % ( )]. *)
Definition is_clean_char (c : ascii) : bool :=
  is_word c || Ascii.eqb c " "
  || existsb (Ascii.eqb c) ["."; "-"; "$"; "%"; "("; ")"]%char.

(** Whitespace is the plain space only. *)
Definition plain_space (c : ascii) : bool := negb (is_space c) || Ascii.eqb c " ".

(** The result of [clean_text] as a text, [None] read as empty. *)
Definition cleaned (text : string) : string := default "" (clean_text (Some text)).

(** ** Scraped records *)

(** A field as the scraper stores it: [None], or a non-empty text; the
    key is never missing. *)
Definition scraped_field (f : field) : Prop :=
  f = PyNone ∨ ∃ s, f = PyStr s ∧ s ≠ "".

(** A record with a name: a non-empty text under [name]. *)
Definition named (p : product) : Prop := ∃ s, name p = PyStr s ∧ s ≠ "".

#[global] Instance named_dec (p : product) : Decision (named p).
Proof.
  unfold named. destruct (name p) as [| |s].
  - right. intros (s & H & _). discriminate H.
  - right. intros (s & H & _). discriminate H.
  - destruct (decide (s = "")) as [->|Hne].
    + right. intros (s' & H & Hs'). injection H as <-. by apply Hs'.
    + left. exists s. by split.
Defined.

(** [elements] is what the loop over the selectors of [scrape_products]
    leaves in [product_elements]: the elements of the first selector that
    selects any, and the empty list when no selector selects one. *)
Definition first_selected {soup card : Type} (select : soup → string → list card)
    (page : soup) (selectors : list string) (elements : list card) : Prop :=
  (elements = [] ∧ ∀ selector, selector ∈ selectors → select page selector = [])
  ∨ ∃ earlier selector later,
      selectors = earlier ++ selector :: later
      ∧ (∀ selector', selector' ∈ earlier → select page selector' = [])
      ∧ select page selector = elements
      ∧ elements ≠ [].

Definition fields_of (p : product) : list field :=
  [name p; price p; rating p; description p; availability p].

Definition is_text (f : field) : Prop := ∃ s, f = PyStr s.

(** A page for the examples: an element is the list of its selectors with
    their texts, and the page lists its elements under [.product]. *)
Definition example_card : Type := list (string * string).

Definition example_text (c : example_card) (selector : string) : option string :=
  snd <$> List.find (fun entry => String.eqb (fst entry) selector) c.

Definition example_select (page : list example_card) (selector : string)
    : list example_card :=
  if String.eqb selector ".product" then page else [].

Definition example_page : list example_card :=
  [ [("h2", "Widget"); (".price", "$10.00")];
    [(".price", "$5.00")];
    [(".title", "Gadget"); (".rating", "3.0 out of 5"); (".in-stock", "In Stock")] ].

(** ** The context text *)

(** The five labelled lines of a product in the context. *)
Definition product_lines (p : product) : string :=
  "  Name: " +:+ show_field (name p) +:+ newline
  +:+ "  Price: " +:+ show_field (price p) +:+ newline
  +:+ "  Rating: " +:+ show_field (rating p) +:+ newline
  +:+ "  Description: " +:+ show_field (description p) +:+ newline
  +:+ "  Availability: " +:+ show_field (availability p) +:+ newline.

(** ** Keys of the index *)

(** What holds of every key of the index: longer than two characters,
    lower-case, with a non-empty postings list. *)
Definition keys_well_formed (keyword_index : gmap string (list nat)) : Prop :=
  ∀ w l, keyword_index !! w = Some l →
         2 < String.length w ∧ str_lower w = w ∧ l ≠ [].

(** * Properties *)

(** ** The specification's examples *)

Example findall_words_ex :
  findall_words "widget $10.00 4.5 out_of 5" = ["widget"; "10"; "00"; "4"; "5"; "out_of"; "5"].
Proof. reflexivity. Qed.

Example search_price_ex :
  search_price_number (remove_commas "from $1,299.50 each") = Some "1299.50"
  /\ search_price_number "N/A" = None
  /\ search_rating_number "4.5 out of 5" = Some "4.5"
  /\ search_rating_number "rated 4." = Some "4."
  /\ search_amount "under " "laptops under $300 or under 5" = Some "300"
  /\ search_amount "under " "under $ 30" = None
  /\ str_contains "out of stock" (str_lower "Currently Out Of Stock") = true.
Proof. repeat split. Qed.

Example float_of_string_ex :
  float_of_string "10.00" = Some (Fin (5629499534213120 # 562949953421312))
  /\ float_of_string "0.1" = Some (Fin (7205759403792794 # 72057594037927936))
  /\ float_of_string "4." = Some (Fin (4503599627370496 # 1125899906842624))
  /\ float_of_string "9007199254740993" = Some (Fin (inject_Z 9007199254740992))
  /\ float_of_string "1,5" = None.
Proof. vm_compute. repeat split. Qed.

Example example_1 :
  filter_by_criteria (SimpleRAG [widget; gadget])
    {| min_price := None; max_price := None; min_rating := None;
       available_only := Some true |} = Ok [widget].
Proof. vm_compute. reflexivity. Qed.

Example example_2 :
  filter_by_criteria (SimpleRAG [widget; gadget])
    {| min_price := Some (Fin 20); max_price := None; min_rating := None;
       available_only := None |} = Ok [gadget].
Proof. vm_compute. reflexivity. Qed.

Example example_3 :
  retrieve_relevant_products (SimpleRAG [widget; gadget]) "cheap widget" 5
    = Ok [ {| record := widget; relevance_score := Some 1 |} ]
  /\ analyze_query_intent "cheap widget"
    = Ok {| sort_by := Some price_asc; intent_available_only := None;
            intent_max_price := None; intent_min_price := None |}.
Proof. vm_compute. split; reflexivity. Qed.

Example example_4 :
  analyze_query_intent "under $30"
    = Ok {| sort_by := None; intent_available_only := None;
            intent_max_price := Some (Fin (8444249301319680 # 281474976710656));
            intent_min_price := None |}.
Proof. vm_compute. reflexivity. Qed.

Example example_5 (query : string) (top_k : Z) :
  extract_keywords [] = ∅
  /\ retrieve_relevant_products (SimpleRAG []) query top_k = Ok [].
Proof.
  split; [reflexivity|].
  unfold retrieve_relevant_products, ranking, SimpleRAG, extract_keywords; simpl.
  assert (H : accumulate_scores ∅ (findall_words (str_lower query)) = []).
  { unfold accumulate_scores. generalize (findall_words (str_lower query)).
    intros l; induction l as [|w l IH]; simpl; [reflexivity|].
    unfold score_word at 2. rewrite lookup_empty. exact IH. }
  rewrite H. unfold most_common, slice_to.
  destruct (top_k <=? 0)%Z; destruct (0 <=? top_k)%Z; simpl;
    rewrite ?take_nil; reflexivity.
Qed.

(** ** The inverted index *)

Section Index.

Implicit Types (keyword_index : gmap string (list nat)) (ps : list product).

Lemma index_word_postings i keyword_index word w :
  postings (index_word i keyword_index word) w
  = postings keyword_index w
      ++ (if is_keyword word then if string_dec word w then [i] else [] else []).
Proof.
  unfold index_word, postings, is_keyword.
  destruct (2 <? String.length word); [|by rewrite app_nil_r].
  destruct (string_dec word w) as [->|Hne].
  - by rewrite lookup_insert_eq.
  - by rewrite lookup_insert_ne, app_nil_r.
Qed.

Lemma fold_index_word_postings i ws keyword_index w :
  postings (fold_left (index_word i) ws keyword_index) w
  = postings keyword_index w
      ++ replicate (count_occ string_dec (List.filter is_keyword ws) w) i.
Proof.
  revert keyword_index.
  induction ws as [|word ws IH]; intros keyword_index; simpl.
  - by rewrite app_nil_r.
  - rewrite IH, index_word_postings, <- app_assoc. f_equal.
    destruct (is_keyword word); [|done].
    simpl. by destruct (string_dec word w).
Qed.

Lemma index_products_postings ps i keyword_index w :
  postings (index_products i ps keyword_index) w
  = postings keyword_index w ++ postings_from i ps w.
Proof.
  revert i keyword_index.
  induction ps as [|p ps IH]; intros i keyword_index; simpl.
  - by rewrite app_nil_r.
  - by rewrite IH, fold_index_word_postings, <- app_assoc.
Qed.

Lemma extract_keywords_postings ps w :
  postings (extract_keywords ps) w = postings_from 0 ps w.
Proof.
  unfold extract_keywords. rewrite index_products_postings.
  unfold postings at 1. by rewrite lookup_empty.
Qed.

Lemma postings_from_bounds ps i w j :
  j ∈ postings_from i ps w → i ≤ j < i + length ps.
Proof.
  revert i. induction ps as [|p ps IH]; intros i; simpl.
  - by intros ?%elem_of_nil.
  - rewrite elem_of_app. intros [[-> _]%elem_of_replicate|H%IH]; lia.
Qed.

Lemma postings_from_count ps i w j p :
  ps !! j = Some p →
  count_occ Nat.eq_dec (postings_from i ps w) (i + j) = occurrences w p.
Proof.
  revert i j. induction ps as [|q ps IH]; intros i j; simpl; [done|].
  rewrite count_occ_app. destruct j as [|j]; simpl.
  - intros [= ->]. rewrite Nat.add_0_r.
    assert (count_occ Nat.eq_dec (postings_from (S i) ps w) i = 0) as ->.
    { apply count_occ_not_In. rewrite <- list_elem_of_In.
      intros H%postings_from_bounds. lia. }
    rewrite Nat.add_0_r. generalize (occurrences w p) as n.
    induction n as [|n IHn]; simpl; [done|].
    destruct (Nat.eq_dec i i); [by rewrite IHn|done].
  - intros H. replace (i + S j) with (S i + j) by lia. rewrite (IH _ _ H).
    assert (count_occ Nat.eq_dec (replicate (occurrences w q) i) (S i + j) = 0) as ->.
    { apply count_occ_not_In. rewrite <- list_elem_of_In.
      intros [? _]%elem_of_replicate. lia. }
    done.
Qed.

End Index.

(** ** The score counter *)

Section Counter.

Implicit Types (c : list (nat * nat)) (l : list nat).

Lemma counter_get_incr c k i :
  counter_get (counter_incr c k) i
  = counter_get c i + (if Nat.eq_dec k i then 1 else 0).
Proof.
  induction c as [|[k' v] c IH]; simpl.
  - destruct (Nat.eqb_spec k i), (Nat.eq_dec k i); done.
  - destruct (Nat.eqb_spec k' k) as [->|Hk]; simpl.
    + destruct (Nat.eqb_spec k i), (Nat.eq_dec k i); lia.
    + destruct (Nat.eqb_spec k' i) as [->|Hi]; [|done].
      destruct (Nat.eq_dec k i); [congruence|lia].
Qed.

Lemma counter_get_fold l c i :
  counter_get (fold_left counter_incr l c) i
  = counter_get c i + count_occ Nat.eq_dec l i.
Proof.
  revert c. induction l as [|k l IH]; intros c; simpl; [lia|].
  rewrite IH, counter_get_incr. destruct (Nat.eq_dec k i); lia.
Qed.

Lemma counter_get_score_word keyword_index c word i :
  counter_get (score_word keyword_index c word) i
  = counter_get c i + count_occ Nat.eq_dec (postings keyword_index word) i.
Proof.
  unfold score_word, postings.
  destruct (keyword_index !! word); simpl; [apply counter_get_fold|lia].
Qed.

Lemma counter_get_accumulate keyword_index query_words c i :
  counter_get (fold_left (score_word keyword_index) query_words c) i
  = counter_get c i
    + sum_list_with (λ w, count_occ Nat.eq_dec (postings keyword_index w) i)
        query_words.
Proof.
  revert c. induction query_words as [|w ws IH]; intros c; simpl; [lia|].
  rewrite IH, counter_get_score_word. lia.
Qed.

Lemma counter_incr_keys c k :
  map fst (counter_incr c k)
  = if bool_decide (k ∈ map fst c) then map fst c else map fst c ++ [k].
Proof.
  induction c as [|[k' v] c IH]; simpl; [done|].
  destruct (Nat.eqb_spec k' k) as [->|Hk]; simpl.
  - rewrite bool_decide_eq_true_2; [done|left].
  - rewrite IH. destruct (bool_decide (k ∈ map fst c)) eqn:E.
    + apply bool_decide_eq_true in E.
      rewrite bool_decide_eq_true_2; [done|by right].
    + apply bool_decide_eq_false in E.
      rewrite bool_decide_eq_false_2; [done|].
      intros [?|?]%elem_of_cons; congruence.
Qed.

Lemma counter_fold_keys l c :
  map fst (fold_left counter_incr l c) = first_seen (map fst c) l.
Proof.
  revert c. induction l as [|k l IH]; intros c; simpl; [done|].
  by rewrite IH, counter_incr_keys.
Qed.

Lemma first_seen_app seen l1 l2 :
  first_seen seen (l1 ++ l2) = first_seen (first_seen seen l1) l2.
Proof. revert seen. induction l1 as [|x l1 IH]; intros seen; simpl; [done|apply IH]. Qed.

Lemma score_word_keys keyword_index c word :
  map fst (score_word keyword_index c word)
  = first_seen (map fst c) (postings keyword_index word).
Proof.
  unfold score_word, postings.
  destruct (keyword_index !! word); simpl; [apply counter_fold_keys|done].
Qed.

Lemma accumulate_keys_from keyword_index query_words c :
  map fst (fold_left (score_word keyword_index) query_words c)
  = first_seen (map fst c) (posting_stream keyword_index query_words).
Proof.
  revert c. induction query_words as [|w ws IH]; intros c; simpl; [done|].
  unfold posting_stream; simpl. rewrite first_seen_app, <- score_word_keys.
  apply IH.
Qed.

Lemma first_seen_NoDup seen l : NoDup seen → NoDup (first_seen seen l).
Proof.
  revert seen. induction l as [|x l IH]; intros seen Hs; simpl; [done|].
  apply IH. destruct (bool_decide (x ∈ seen)) eqn:E; [done|].
  apply bool_decide_eq_false in E.
  apply NoDup_app. repeat split; [done| |apply NoDup_singleton].
  intros y Hy ->%list_elem_of_singleton. done.
Qed.

Lemma first_seen_elem seen l x :
  x ∈ first_seen seen l ↔ x ∈ seen ∨ x ∈ l.
Proof.
  revert seen. induction l as [|y l IH]; intros seen; simpl.
  - rewrite elem_of_nil. tauto.
  - rewrite IH, elem_of_cons. destruct (bool_decide (y ∈ seen)) eqn:E.
    + apply bool_decide_eq_true in E. split; [tauto|].
      intros [?|[->|?]]; tauto.
    + rewrite elem_of_app, list_elem_of_singleton. tauto.
Qed.

Lemma counter_get_entry c k v :
  NoDup (map fst c) → (k, v) ∈ c → counter_get c k = v.
Proof.
  induction c as [|[k' v'] c IH]; simpl; [by intros _ ?%elem_of_nil|].
  intros [Hk Hc]%NoDup_cons [[= -> ->]|Hin]%elem_of_cons.
  - by rewrite Nat.eqb_refl.
  - destruct (Nat.eqb_spec k' k) as [->|_]; [|by apply IH].
    destruct Hk. apply list_elem_of_fmap. by exists (k, v).
Qed.

End Counter.

(** ** The ranking order *)

Section Ranking.

Context {A : Type}.
Implicit Types (l : list A) (x y z : A).

Lemma before_nil x y : ¬ before x y [].
Proof. intros (i & j & _ & H & _). done. Qed.

Lemma before_cons x y z l :
  before x y (z :: l) ↔ (x = z ∧ y ∈ l) ∨ before x y l.
Proof.
  split.
  - intros (i & j & Hij & Hi & Hj).
    destruct j as [|j]; [lia|]. simpl in Hj.
    destruct i as [|i]; simpl in Hi.
    + left. split; [congruence|]. apply list_elem_of_lookup. eauto.
    + right. exists i, j. repeat split; [lia|done..].
  - intros [[-> (j & Hj)%list_elem_of_lookup]|(i & j & Hij & Hi & Hj)].
    + exists 0, (S j). repeat split; [lia|done..].
    + exists (S i), (S j). repeat split; [lia|done..].
Qed.



End Ranking.

Section Sorting.

Implicit Types (l : list (nat * nat)) (x y z : nat * nat).

Lemma insert_desc_elem x z l : x ∈ insert_desc z l ↔ x = z ∨ x ∈ l.
Proof.
  induction l as [|w l IH]; simpl.
  - rewrite list_elem_of_singleton, elem_of_nil. tauto.
  - destruct (snd z <? snd w); rewrite !elem_of_cons; [rewrite IH|]; tauto.
Qed.

Lemma sorted_desc_elem x l : x ∈ sorted_desc l ↔ x ∈ l.
Proof.
  induction l as [|w l IH]; simpl; [done|].
  rewrite insert_desc_elem, elem_of_cons, IH. done.
Qed.

Lemma sorted_desc_length l : length (sorted_desc l) = length l.
Proof.
  induction l as [|w l IH]; simpl; [done|]. rewrite <- IH.
  generalize (sorted_desc l) as s. clear.
  induction s as [|y s IHs]; simpl; [done|].
  destruct (snd w <? snd y); simpl; by rewrite ?IHs.
Qed.


Lemma insert_desc_sorted z l :
  (∀ x y, before x y l → snd y ≤ snd x) →
  ∀ x y, before x y (insert_desc z l) → snd y ≤ snd x.
Proof.
  induction l as [|w l IH]; simpl; intros Hl x y.
  - intros (i & j & Hij & Hi & Hj). destruct j as [|j]; [lia|]. done.
  - assert (Hl' : ∀ x y, before x y l → snd y ≤ snd x).
    { intros ?? ?. apply Hl, before_cons. by right. }
    assert (Hw : ∀ y, y ∈ l → snd y ≤ snd w).
    { intros ? ?. apply Hl, before_cons. by left. }
    destruct (Nat.ltb_spec (snd z) (snd w)) as [Hlt|Hge].
    + intros [[-> Hy]|Hb]%before_cons.
      * apply insert_desc_elem in Hy as [->|Hy]; [lia|by apply Hw].
      * by apply (IH Hl').
    + intros [[-> Hy]|Hb]%before_cons; [|by apply Hl].
      apply elem_of_cons in Hy as [->|Hy]; [done|].
      specialize (Hw _ Hy). lia.
Qed.

Lemma sorted_desc_sorted l x y : before x y (sorted_desc l) → snd y ≤ snd x.
Proof.
  revert x y. induction l as [|w l IH]; simpl.
  - by intros x y ?%before_nil.
  - by apply insert_desc_sorted.
Qed.


Lemma most_common_elem n l x : x ∈ most_common n l → x ∈ l.
Proof.
  unfold most_common. destruct (n <=? 0)%Z; [by intros ?%elem_of_nil|].
  intros (i & Hi & _)%elem_of_take. apply sorted_desc_elem.
  apply list_elem_of_lookup. eauto.
Qed.


Lemma most_common_length n l :
  (0 <= n)%Z → length (most_common n l) = Nat.min (Z.to_nat n) (length l).
Proof.
  intros Hn. unfold most_common. destruct (Z.leb_spec n 0).
  - assert (n = 0%Z) as -> by lia. done.
  - by rewrite length_take, sorted_desc_length.
Qed.

Lemma most_common_nil n l : l = [] → most_common n l = [].
Proof.
  intros ->. unfold most_common. destruct (n <=? 0)%Z; [done|].
  simpl. apply take_nil.
Qed.

End Sorting.

(** ** The relevance scorer *)

Section Scorer.

Implicit Types (R : list product) (Q : string) (k : Z).

Lemma scores_keys self Q : map fst (scores self Q) = encounter_order self Q.
Proof. apply accumulate_keys_from. Qed.

Lemma scores_NoDup self Q : NoDup (map fst (scores self Q)).
Proof. rewrite scores_keys. apply first_seen_NoDup, NoDup_nil_2. Qed.

Lemma posting_stream_elem keyword_index ws i :
  i ∈ posting_stream keyword_index ws ↔ ∃ w, w ∈ ws ∧ i ∈ postings keyword_index w.
Proof.
  unfold posting_stream. induction ws as [|w0 ws IH]; simpl.
  - split; [by intros ?%elem_of_nil|by intros (w & ?%elem_of_nil & _)].
  - rewrite elem_of_app, IH. split.
    + intros [Hi|(w & Hw & Hi)]; [exists w0|exists w]; split; try done;
        [left|by right].
    + intros (w & [->|Hw]%elem_of_cons & Hi); [by left|right; eauto].
Qed.

(** Every scored position is a position of the collection. *)
Lemma scores_valid R Q e : e ∈ scores (SimpleRAG R) Q → fst e < length R.
Proof.
  intros He.
  assert (Hk : fst e ∈ encounter_order (SimpleRAG R) Q).
  { rewrite <- scores_keys. apply list_elem_of_fmap. eauto. }
  apply first_seen_elem in Hk as [Hk|Hk]; [by apply elem_of_nil in Hk|].
  apply posting_stream_elem in Hk as (w & _ & Hi). simpl in Hi.
  rewrite extract_keywords_postings in Hi.
  apply postings_from_bounds in Hi. lia.
Qed.

(** The count of a scored position is the match count of its record. *)
Lemma scores_value R Q i s p :
  (i, s) ∈ scores (SimpleRAG R) Q → R !! i = Some p → s = match_count Q p.
Proof.
  intros He Hp.
  rewrite <- (counter_get_entry _ _ _ (scores_NoDup _ _) He).
  unfold scores, accumulate_scores. rewrite counter_get_accumulate. simpl.
  unfold match_count. generalize (query_words Q) as ws.
  induction ws as [|w ws IH]; simpl; [done|].
  pose proof (postings_from_count R 0 w i p Hp) as Hw. simpl in Hw.
  rewrite extract_keywords_postings, Hw. lia.
Qed.

Lemma ranking_elem self Q k e : e ∈ ranking self Q k → e ∈ scores self Q.
Proof. apply most_common_elem. Qed.

(** The annotation loop succeeds on valid positions, entry by entry. *)
Lemma annotate_valid R top :
  Forall (λ e, fst e < length R) top →
  ∃ out, annotate R top = Ok out
         ∧ Forall2 (λ e sp, R !! fst e = Some (record sp)
                            ∧ relevance_score sp = Some (snd e)) top out.
Proof.
  induction 1 as [|[i s] top Hi _ (out & Hout & Hall)]; simpl.
  - exists []. split; [done|constructor].
  - simpl in Hi. apply lookup_lt_is_Some_2 in Hi as [p Hp].
    unfold product_at. rewrite Hp. simpl. rewrite Hout. simpl.
    eexists. split; [done|]. constructor; [by split|done].
Qed.

Lemma ranking_valid R Q k :
  Forall (λ e, fst e < length R) (ranking (SimpleRAG R) Q k).
Proof. apply Forall_forall. intros e He%ranking_elem. by apply (scores_valid R Q). Qed.

(** The shape of the result: the annotated ranking, or the unannotated
    head of the collection when the ranking is empty. *)
Lemma retrieve_shape R Q k :
  ∃ top_products,
    Forall2 (λ e sp, R !! fst e = Some (record sp)
                     ∧ relevance_score sp = Some (snd e))
            (ranking (SimpleRAG R) Q k) top_products
    ∧ retrieve_relevant_products (SimpleRAG R) Q k
      = Ok (match top_products with
            | [] => map unannotated (slice_to R k)
            | _ => top_products
            end).
Proof.
  destruct (annotate_valid R _ (ranking_valid R Q k)) as (out & Hout & Hall).
  exists out. split; [done|].
  unfold retrieve_relevant_products. simpl. rewrite Hout. simpl.
  by destruct out.
Qed.

Lemma slice_to_length R k :
  (0 <= k)%Z → length (slice_to R k) = Nat.min (Z.to_nat k) (length R).
Proof.
  intros Hk. unfold slice_to. destruct (Z.leb_spec 0 k); [|lia].
  apply length_take.
Qed.

(** Distinct matched tokens are counted at least once each. *)
Lemma distinct_matches_le Q p : distinct_matches Q p ≤ match_count Q p.
Proof.
  unfold distinct_matches, match_count, matched_tokens.
  generalize (query_words Q) as ws. intros ws.
  transitivity (length (filter (λ w, w ∈ keywords_of p) ws)).
  { apply sublist_length. generalize (filter (λ w, w ∈ keywords_of p) ws) as l.
    induction l as [|x l IH]; simpl; [done|].
    destruct (decide_rel _ x l); [by apply sublist_cons|by apply sublist_skip]. }
  induction ws as [|w ws IH]; simpl; [done|].
  rewrite filter_cons. destruct (decide (w ∈ keywords_of p)) as [Hw|Hw]; simpl; [|lia].
  apply list_elem_of_In, (count_occ_In string_dec) in Hw.
  unfold occurrences at 1. lia.
Qed.

End Scorer.

(** ** Theorems on the index and the scorer *)

(** C1, counterexample: the query "widget" has one distinct token, and it
    matches the record that names the word in its name and in its
    description; the record's score is 2. *)
Lemma score_exceeds_distinct_matches :
  ¬ score_bounded_by_distinct_matches [sturdy_widget] "widget" 5.
Proof.
  intros H.
  specialize (H [ {| record := sturdy_widget; relevance_score := Some 2 |} ]
                {| record := sturdy_widget; relevance_score := Some 2 |} 2).
  assert (Hd : distinct_matches "widget" sturdy_widget = 1) by (vm_compute; reflexivity).
  simpl in H. rewrite Hd in H.
  assert (2 ≤ 1); [|lia].
  apply H; [vm_compute; reflexivity|left|reflexivity].
Qed.

(** C1, amended: the score of a returned record is its match count, the
    sum over the query's token occurrences of the occurrences of that token
    among the record's indexed words; it is at least the number of distinct
    query tokens that match the record. *)
Theorem score_is_match_count R Q k out sp s :
  retrieve_relevant_products (SimpleRAG R) Q k = Ok out →
  sp ∈ out → relevance_score sp = Some s →
  s = match_count Q (record sp) ∧ distinct_matches Q (record sp) ≤ s.
Proof.
  intros Hret Hsp Hs.
  assert (Hm : s = match_count Q (record sp)); [|split; [done|]].
  - destruct (retrieve_shape R Q k) as (top & Hall & Heq).
    rewrite Heq in Hret. injection Hret as <-.
    destruct top as [|sp0 top].
    { apply list_elem_of_fmap in Hsp as (p & -> & _). done. }
    apply list_elem_of_lookup in Hsp as (n & Hn).
    destruct (Forall2_lookup_r _ _ _ _ _ Hall Hn) as ([i s'] & He & Hi & Hs').
    simpl in Hi, Hs'. rewrite Hs in Hs'. injection Hs' as ->.
    apply (scores_value R Q i s' _); [|done].
    apply (ranking_elem _ Q k), list_elem_of_lookup. eauto.
  - rewrite Hm. apply distinct_matches_le.
Qed.

Lemma score_is_match_count_witness :
  2 = match_count "widget" sturdy_widget
  ∧ distinct_matches "widget" sturdy_widget ≤ 2.
Proof.
  apply (score_is_match_count [sturdy_widget] "widget" 5
           [ {| record := sturdy_widget; relevance_score := Some 2 |} ]
           {| record := sturdy_widget; relevance_score := Some 2 |} 2).
  - vm_compute. reflexivity.
  - left.
  - reflexivity.
Defined.

Lemma accumulate_no_key keyword_index ws c :
  Forall (λ w, keyword_index !! w = None) ws →
  fold_left (score_word keyword_index) ws c = c.
Proof.
  induction 1 as [|w ws Hw _ IH]; simpl; [done|].
  unfold score_word at 2. by rewrite Hw.
Qed.

(** C2: when no token of the query is a key of the index, the result is
    the slice [products[:top_k]] of the collection itself, which for a
    non-negative [top_k] is its first [top_k] records, and no returned
    record has a [relevance_score]. *)
Theorem fallback_returns_head R Q k :
  Forall (λ w, extract_keywords R !! w = None) (query_words Q) →
  retrieve_relevant_products (SimpleRAG R) Q k
    = Ok (map unannotated (slice_to R k))
  ∧ ((0 <= k)%Z → slice_to R k = take (Z.to_nat k) R)
  ∧ Forall (λ sp, relevance_score sp = None) (map unannotated (slice_to R k)).
Proof.
  intros Hnone. repeat split.
  - unfold retrieve_relevant_products, ranking, accumulate_scores. simpl.
    fold (query_words Q). rewrite (accumulate_no_key _ _ _ Hnone).
    by rewrite most_common_nil.
  - intros Hk. unfold slice_to. by destruct (Z.leb_spec 0 k); [|lia].
  - apply Forall_fmap, Forall_forall. done.
Qed.

Lemma fallback_returns_head_witness :
  retrieve_relevant_products (SimpleRAG [widget; gadget]) "red shoes" 1
    = Ok [unannotated widget].
Proof.
  destruct (fallback_returns_head [widget; gadget] "red shoes" 1) as (H & _ & _).
  - vm_compute. repeat constructor.
  - exact H.
Defined.





(** C4, counterexample: [most_common] of a negative number is empty, so
    the fallback slice [products[:-1]] is returned: one record, more than
    min(-1, 2). *)
Lemma negative_top_k_exceeds_bound :
  retrieve_relevant_products (SimpleRAG [widget; gadget]) "widget" (-1)
    = Ok [unannotated widget]
  ∧ ¬ length_within_bound [widget; gadget] "widget" (-1).
Proof.
  split; [vm_compute; reflexivity|].
  intros (out & Hout & Hlen).
  assert (Z.min (-1) (Z.of_nat (length [widget; gadget])) = (-1)%Z) as Hmin
    by reflexivity.
  rewrite Hmin in Hlen. lia.
Qed.

(** There are no more scored positions than records. *)
Lemma scores_length R Q : length (scores (SimpleRAG R) Q) ≤ length R.
Proof.
  rewrite <- (length_fmap fst).
  transitivity (length (seq 0 (length R))); [|by rewrite length_seq].
  apply submseteq_length, NoDup_submseteq; [apply scores_NoDup|].
  intros i (e & -> & He)%list_elem_of_fmap.
  apply elem_of_seq. apply scores_valid in He. lia.
Qed.

(** C4, amended: the scorer returns a list for every collection, query and
    [top_k], also for the empty collection; when [top_k] is not negative
    the list has at most min(top_k, |R|) records. *)
Theorem retrieve_returns_bounded R Q k :
  ∃ out, retrieve_relevant_products (SimpleRAG R) Q k = Ok out
         ∧ ((0 <= k)%Z →
            (Z.of_nat (length out) <= Z.min k (Z.of_nat (length R)))%Z).
Proof.
  destruct (retrieve_shape R Q k) as (top & Hall & Heq).
  eexists. split; [exact Heq|]. intros Hk.
  destruct top as [|sp top].
  - rewrite length_fmap, slice_to_length by done. lia.
  - apply Forall2_length in Hall. rewrite <- Hall.
    unfold ranking. rewrite most_common_length by done.
    pose proof (scores_length R Q) as Hlen. unfold scores, query_words in Hlen.
    lia.
Qed.

Lemma retrieve_returns_bounded_witness :
  ∃ out, retrieve_relevant_products (SimpleRAG [widget; gadget]) "widget" 1 = Ok out
         ∧ (Z.of_nat (length out) <= Z.min 1 (Z.of_nat (length [widget; gadget])))%Z.
Proof.
  destruct (retrieve_returns_bounded [widget; gadget] "widget" 1) as (out & Hout & Hlen).
  exists out. split; [exact Hout|]. apply Hlen. lia.
Defined.

(** C5: every position in a postings list of the index built from a
    collection is a position of that collection. *)
Theorem index_positions_valid R word l i :
  extract_keywords R !! word = Some l → i ∈ l → i < length R.
Proof.
  intros Hl Hi.
  assert (Hp : i ∈ postings (extract_keywords R) word).
  { unfold postings. by rewrite Hl. }
  rewrite extract_keywords_postings in Hp.
  apply postings_from_bounds in Hp. lia.
Qed.

Lemma index_positions_valid_witness : 1 < length [widget; gadget].
Proof.
  apply (index_positions_valid [widget; gadget] "gadget" [1] 1).
  - vm_compute. reflexivity.
  - left.
Defined.

(** ** The texts that [float] accepts *)

Section NumberTexts.

Implicit Types (f : ascii → bool) (s t : string).

Lemma span_fst_forall f s : string_forall f (fst (span f s)) = true.
Proof.
  induction s as [|c s IH]; simpl; [done|].
  destruct (f c) eqn:E; [|done]. destruct (span f s). simpl in *.
  by rewrite E, IH.
Qed.

Lemma span_app f s t :
  string_forall f s = true → stops f t → span f (s +:+ t) = (s, t).
Proof.
  intros Hs Ht. induction s as [|c s IH]; simpl in *.
  - destruct t as [|c t]; simpl in *; [done|]. by rewrite Ht.
  - apply andb_true_iff in Hs as [Hc Hs]. by rewrite Hc, (IH Hs).
Qed.

Lemma span_all f s : string_forall f s = true → span f s = (s, EmptyString).
Proof.
  intros Hs. induction s as [|c s IH]; simpl in *; [done|].
  apply andb_true_iff in Hs as [Hc Hs]. by rewrite Hc, (IH Hs).
Qed.

(** [float] accepts a non-empty run of digits ... *)
Lemma float_of_digits s :
  string_forall is_digit s = true → String.eqb s "" = false →
  ∃ x, to_float s = Ok x.
Proof.
  intros Hs He. unfold to_float, float_of_string, parse_decimal.
  rewrite (span_all _ _ Hs), He. eauto.
Qed.

(** ... and such a run followed by a dot and further digits. *)
Lemma float_of_decimal s t :
  string_forall is_digit s = true → String.eqb s "" = false →
  string_forall is_digit t = true →
  ∃ x, to_float (s +:+ "." +:+ t) = Ok x.
Proof.
  intros Hs He Ht. unfold to_float, float_of_string, parse_decimal.
  rewrite (span_app is_digit s ("." +:+ t) Hs) by done.
  rewrite He. simpl. change ("" +:+ t) with t.
  rewrite (span_all _ _ Ht). simpl. eauto.
Qed.

Lemma float_of_match s m :
  match_number_here is_digit s = Some m → ∃ x, to_float m = Ok x.
Proof.
  unfold match_number_here.
  pose proof (span_fst_forall is_digit s) as Hrun.
  destruct (span is_digit s) as [run rest]. simpl in Hrun.
  destruct (String.eqb run "") eqn:He; [done|].
  assert (Hplain : ∃ x, to_float run = Ok x) by by apply float_of_digits.
  destruct rest as [|c rest]; [by intros [= <-]|].
  destruct (Ascii.eqb_spec c ".") as [->|Hc].
  - intros [= <-]. apply float_of_decimal; [done..|apply span_fst_forall].
  - intros Hm. replace m with run; [done|].
    destruct c as [[] [] [] [] [] [] [] []]; congruence.
Qed.

Lemma float_of_rating_number s m :
  search_rating_number s = Some m → ∃ x, to_float m = Ok x.
Proof.
  unfold search_rating_number. induction s as [|c s IH]; simpl.
  - done.
  - destruct (match_number_here is_digit (String c s)) eqn:E; [|done].
    intros [= <-]. by apply (float_of_match (String c s)).
Qed.

Lemma remove_commas_clean s : string_forall not_comma (remove_commas s) = true.
Proof.
  induction s as [|c s IH]; simpl; [done|].
  destruct (Ascii.eqb c ",") eqn:E; simpl; [done|].
  unfold not_comma at 1. by rewrite E.
Qed.

Lemma span_comma_free s :
  string_forall not_comma s = true → span is_digit_or_comma s = span is_digit s.
Proof.
  induction s as [|c s IH]; simpl; [done|].
  intros [Hc Hs]%andb_true_iff. unfold is_digit_or_comma at 1.
  unfold not_comma in Hc. apply negb_true_iff in Hc. rewrite Hc, orb_false_r.
  by rewrite (IH Hs).
Qed.

(** On a text without commas the price pattern matches what the rating
    pattern matches. *)
Lemma search_price_comma_free s :
  string_forall not_comma s = true →
  search_price_number s = search_rating_number s.
Proof.
  unfold search_price_number, search_rating_number.
  induction s as [|c s IH]; intros Hs.
  - done.
  - assert (Hm : match_number_here is_digit_or_comma (String c s)
               = match_number_here is_digit (String c s)).
    { unfold match_number_here. by rewrite (span_comma_free _ Hs). }
    simpl in Hs. apply andb_true_iff in Hs as [_ Hs].
    cbn [search_number]. by rewrite Hm, (IH Hs).
Qed.

Lemma float_of_price_number s m :
  search_price_number (remove_commas s) = Some m → ∃ x, to_float m = Ok x.
Proof.
  rewrite search_price_comma_free by apply remove_commas_clean.
  apply float_of_rating_number.
Qed.

Lemma float_of_amount prefix s d :
  search_amount prefix s = Some d → ∃ x, to_float d = Ok x.
Proof.
  assert (Hrun : ∀ t d, (let run := fst (span is_digit t) in
                         if String.eqb run "" then None else Some run) = Some d →
                        ∃ x, to_float d = Ok x).
  { intros t d'. simpl. destruct (String.eqb (fst (span is_digit t)) "") eqn:E; [done|].
    intros [= <-]. apply float_of_digits; [apply span_fst_forall|done]. }
  assert (Hhere : ∀ t, match_amount_here prefix t = Some d → ∃ x, to_float d = Ok x).
  { intros t. unfold match_amount_here.
    destruct (String.prefix prefix t); [|done].
    set (rest := String.substring _ _ t). clearbody rest.
    destruct rest as [|c rest]; [apply Hrun|].
    destruct (Ascii.eqb_spec c "$") as [->|Hc].
    - destruct (String.eqb (fst (span is_digit rest)) "") eqn:E.
      + apply Hrun.
      + intros [= <-]. apply float_of_digits; [apply span_fst_forall|done].
    - intros H. apply (Hrun (String c rest)).
      destruct c as [[] [] [] [] [] [] [] []]; try exact H. congruence. }
  induction s as [|c s IH]; simpl.
  - destruct (match_amount_here prefix "") eqn:E; [|done].
    intros [= <-]. by apply (Hhere "").
  - destruct (match_amount_here prefix (String c s)) eqn:E; [|done].
    intros [= <-]. by apply (Hhere (String c s)).
Qed.

End NumberTexts.

(** ** The order on numbers *)

Section Numbers.

Implicit Types (x a b : num).

Lemma Qltb_lt (p q : Q) : Qltb p q = true ↔ (p < q)%Q.
Proof. unfold Qltb, Qlt. apply Z.ltb_lt. Qed.

Lemma num_lt_le_trans x a b :
  num_lt x a = true → num_le a b = true → num_lt x b = true.
Proof.
  destruct x, a, b; simpl; try done.
  rewrite !Qltb_lt, Qle_bool_iff. apply Qlt_le_trans.
Qed.

Lemma num_le_lt_trans b a x :
  num_le b a = true → num_lt a x = true → num_lt b x = true.
Proof.
  destruct x, a, b; simpl; try done.
  rewrite !Qltb_lt, Qle_bool_iff. apply Qle_lt_trans.
Qed.

End Numbers.

(** ** The criteria filter *)

Section Filter.

Implicit Types (c : criteria) (p : product) (m : bool).

Lemma price_block_flag c p m :
  price_block c p m = (b ← price_block c p true; Ok (m && b)).
Proof.
  unfold price_block.
  destruct (has_key (min_price c) || has_key (max_price c)); simpl;
    [|by rewrite andb_true_r].
  destruct (as_receiver (price p)); simpl; [|done].
  destruct (search_price_number _); simpl; [|by rewrite andb_false_r].
  destruct (to_float _); simpl; [|done]. by rewrite <- andb_assoc.
Qed.

Lemma rating_block_flag c p m :
  rating_block c p m = (b ← rating_block c p true; Ok (m && b)).
Proof.
  unfold rating_block.
  destruct (has_key (min_rating c)); simpl; [|by rewrite andb_true_r].
  destruct (as_subject (rating p)); simpl; [|done].
  destruct (search_rating_number _); simpl; [|by rewrite andb_false_r].
  destruct (to_float _); simpl; done.
Qed.

Lemma availability_block_flag c p m :
  availability_block c p m = (b ← availability_block c p true; Ok (m && b)).
Proof.
  unfold availability_block.
  destruct (available_only c) as [[]|]; simpl; try by rewrite andb_true_r.
  destruct (as_receiver (availability p)); simpl; [|done].
  destruct (_ || _); simpl; by rewrite ?andb_false_r, ?andb_true_r.
Qed.

(** The three constraints are checked one after the other and conjoined. *)
Lemma matches_blocks c p :
  matches c p
  = (b1 ← price_block c p true;
     b2 ← rating_block c p true;
     b3 ← availability_block c p true;
     Ok (b1 && b2 && b3)).
Proof.
  unfold matches. destruct (price_block c p true) as [b1|]; simpl; [|done].
  rewrite rating_block_flag. destruct (rating_block c p true) as [b2|]; simpl; [|done].
  rewrite availability_block_flag. by destruct (availability_block c p true).
Qed.

Lemma permits_more_refl r : permits_more r r.
Proof. intros y ->. eauto. Qed.

Lemma matches_permits_more c1 c2 p :
  permits_more (price_block c1 p true) (price_block c2 p true) →
  permits_more (rating_block c1 p true) (rating_block c2 p true) →
  permits_more (availability_block c1 p true) (availability_block c2 p true) →
  permits_more (matches c1 p) (matches c2 p).
Proof.
  intros Hp Hr Ha y2. rewrite !matches_blocks.
  destruct (price_block c2 p true) as [b1|]; simpl; [|done].
  destruct (rating_block c2 p true) as [b2|]; simpl; [|done].
  destruct (availability_block c2 p true) as [b3|]; simpl; [|done].
  destruct (Hp _ eq_refl) as (b1' & -> & H1).
  destruct (Hr _ eq_refl) as (b2' & -> & H2).
  destruct (Ha _ eq_refl) as (b3' & -> & H3). simpl.
  intros [= <-]. eexists. split; [done|].
  intros [[-> ->]%andb_true_iff ->]%andb_true_iff.
  by rewrite H1, H2, H3.
Qed.

Lemma tightens_permits_more c1 c2 p :
  tightens c1 c2 → permits_more (matches c1 p) (matches c2 p).
Proof.
  destruct 1 as [b Hb|b Hb|b Hb|]; apply matches_permits_more;
    try apply permits_more_refl.
  - (* a higher [min_price] *)
    unfold price_block, permits_more. simpl.
    destruct (as_receiver (price p)) as [text|]; simpl.
    2:{ intros ? [=]. }
    destruct (search_price_number _) as [m|]; simpl.
    2:{ intros ? [= <-]. destruct (_ || _); eauto. }
    destruct (to_float m) as [x|]; simpl; [|intros ? [=]].
    intros ? [= <-].
    destruct (min_price c1) as [a|]; simpl in *.
    + eexists. split; [done|].
      intros [Hx ->]%andb_true_iff. rewrite andb_true_r.
      apply negb_true_iff in Hx. apply negb_true_iff.
      destruct (num_lt x a) eqn:E; [|done].
      by rewrite (num_lt_le_trans _ _ _ E Hb) in Hx.
    + destruct (max_price c1); simpl; eexists; (split; [done|]); [|done].
      by intros [_ ->]%andb_true_iff.
  - (* a lower [max_price] *)
    unfold price_block, permits_more. simpl. rewrite orb_true_r.
    destruct (as_receiver (price p)) as [text|]; simpl.
    2:{ intros ? [=]. }
    destruct (search_price_number _) as [m|]; simpl.
    2:{ intros ? [= <-]. destruct (_ || _); eauto. }
    destruct (to_float m) as [x|]; simpl; [|intros ? [=]].
    intros ? [= <-].
    destruct (max_price c1) as [a|]; simpl in *.
    + rewrite orb_true_r. eexists. split; [done|].
      intros [-> Hx]%andb_true_iff. simpl.
      apply negb_true_iff in Hx. apply negb_true_iff. unfold num_gt in *.
      destruct (num_lt a x) eqn:E; [|done].
      by rewrite (num_le_lt_trans _ _ _ Hb E) in Hx.
    + rewrite orb_false_r. destruct (min_price c1); simpl; eexists;
        (split; [done|]); [|done].
      intros [-> _]%andb_true_iff. done.
  - (* a higher [min_rating] *)
    unfold rating_block, permits_more. simpl.
    destruct (as_subject (rating p)) as [text|]; simpl.
    2:{ intros ? [=]. }
    destruct (search_rating_number _) as [m|]; simpl.
    2:{ intros ? [= <-]. destruct (has_key _); eauto. }
    destruct (to_float m) as [x|]; simpl; [|intros ? [=]].
    intros ? [= <-].
    destruct (min_rating c1) as [a|]; simpl in *; eexists; (split; [done|]); [|done].
    intros Hx. apply negb_true_iff in Hx. apply negb_true_iff.
    destruct (num_lt x a) eqn:E; [|done].
    by rewrite (num_lt_le_trans _ _ _ E Hb) in Hx.
  - (* [available_only] set *)
    unfold availability_block, permits_more. simpl.
    destruct (available_only c1) as [[]|]; eauto.
Qed.

(** The loop keeps, in order, the records that pass. *)
Lemma filter_loop_spec c ps acc out :
  filter_loop c ps acc = Ok out →
  out = acc ++ List.filter (passes c) ps
  ∧ Forall (λ p, returns (matches c p)) ps.
Proof.
  revert acc. induction ps as [|p ps IH]; intros acc; simpl.
  - intros [= <-]. by rewrite app_nil_r.
  - unfold passes. destruct (matches c p) as [b|] eqn:E; simpl; [|done].
    intros (-> & Hall)%IH. split.
    + destruct b; [by rewrite <- app_assoc|done].
    + constructor; [by exists b|done].
Qed.

Lemma filter_loop_returns c ps acc :
  Forall (λ p, returns (matches c p)) ps →
  filter_loop c ps acc = Ok (acc ++ List.filter (passes c) ps).
Proof.
  intros Hall. revert acc.
  induction Hall as [|p ps [b Hb] _ IH]; intros acc; simpl.
  - by rewrite app_nil_r.
  - unfold passes at 1. rewrite Hb. simpl. rewrite IH.
    destruct b; [by rewrite <- app_assoc|done].
Qed.

Lemma filter_by_criteria_spec R c out :
  filter_by_criteria (SimpleRAG R) c = Ok out ↔
  out = List.filter (passes c) R ∧ Forall (λ p, returns (matches c p)) R.
Proof.
  unfold filter_by_criteria. simpl. split.
  - apply filter_loop_spec.
  - intros [-> Hall]. by rewrite filter_loop_returns.
Qed.

(** The loop body returns on a record whose inspected fields are absent
    or strings. *)
Lemma matches_returns c p : texts_present p → returns (matches c p).
Proof.
  intros (Hp & Hr & Ha). rewrite matches_blocks.
  assert (H1 : returns (price_block c p true)).
  { unfold price_block, as_receiver. destruct (_ || _); [|by eexists].
    destruct (price p) as [| |text]; simpl; [by eexists|done|].
    destruct (search_price_number _) as [m|] eqn:E; [|by eexists].
    destruct (float_of_price_number text m E) as [x ->]. by eexists. }
  assert (H2 : returns (rating_block c p true)).
  { unfold rating_block, as_subject. destruct (has_key _); [|by eexists].
    destruct (rating p) as [| |text]; simpl; [by eexists|done|].
    destruct (search_rating_number _) as [m|] eqn:E; [|by eexists].
    destruct (float_of_rating_number text m E) as [x ->]. by eexists. }
  assert (H3 : returns (availability_block c p true)).
  { unfold availability_block, as_receiver.
    destruct (available_only c) as [[]|]; try by eexists.
    destruct (availability p) as [| |text]; simpl; [by eexists|done|].
    destruct (_ || _); by eexists. }
  destruct H1 as [b1 ->], H2 as [b2 ->], H3 as [b3 ->]. by eexists.
Qed.

(** The filter returns on such a collection. *)
Lemma filter_by_criteria_returns R c :
  Forall texts_present R → returns (filter_by_criteria (SimpleRAG R) c).
Proof.
  intros Hall. eexists. apply filter_by_criteria_spec. split; [done|].
  eapply Forall_impl; [exact Hall|]. intros p. apply matches_returns.
Qed.

Lemma filter_permits_more (f g : product → bool) (ps : list product) :
  (∀ p, g p = true → f p = true) →
  List.filter g ps `sublist_of` List.filter f ps.
Proof.
  intros Hfg. induction ps as [|p ps IH]; simpl; [done|].
  destruct (g p) eqn:E.
  - rewrite (Hfg _ E). by apply sublist_skip.
  - destruct (f p); [by apply sublist_cons|done].
Qed.

End Filter.

(** ** Theorems on the criteria filter *)

Section FilterTheorems.

Implicit Types (R : list product) (c : criteria) (p : product).

(** With a price bound set, a record whose price text holds no number
    does not pass, whatever its other fields are. *)
Lemma unparsed_price_fails c p text :
  has_key (min_price c) || has_key (max_price c) = true →
  get_or_empty (price p) = PyStr text →
  search_price_number (remove_commas text) = None →
  price_block c p true = Ok false ∧ passes c p = false.
Proof.
  intros Hc Hp Hs.
  assert (Hb : price_block c p true = Ok false).
  { unfold price_block, as_receiver. rewrite Hc, Hp. simpl. by rewrite Hs. }
  split; [done|]. unfold passes. rewrite matches_blocks, Hb. simpl.
  destruct (rating_block c p true); simpl; [|done].
  by destruct (availability_block c p true).
Qed.

(** Such a record is in no output of the filter. *)
Lemma unparsed_price_excluded R c out p text :
  has_key (min_price c) || has_key (max_price c) = true →
  get_or_empty (price p) = PyStr text →
  search_price_number (remove_commas text) = None →
  filter_by_criteria (SimpleRAG R) c = Ok out → p ∉ out.
Proof.
  intros Hc Hp Hs [-> _]%filter_by_criteria_spec Hin.
  apply list_elem_of_In, filter_In in Hin as [_ Hin].
  destruct (unparsed_price_fails c p text Hc Hp Hs) as [_ Hf]. congruence.
Qed.

(** C6, failing input: the record has a price text without a number and,
    as scraped, no rating; the criteria bound price and rating.  The price
    block sets the flag to false, then the rating block searches [None]
    and raises [TypeError]. *)
Theorem unparsed_price_then_none_rating_raises :
  search_price_number (remove_commas "Call for price") = None
  ∧ price_block {| min_price := Some (Fin 5); max_price := None;
                   min_rating := Some (Fin 3); available_only := None |}
      call_for_price true = Ok false
  ∧ filter_by_criteria (SimpleRAG [call_for_price])
      {| min_price := Some (Fin 5); max_price := None;
         min_rating := Some (Fin 3); available_only := None |}
    = Raise TypeError.
Proof. vm_compute. repeat split. Qed.

(** The price block itself raises when the scraped record has no price:
    [None] has no [replace] attribute. *)
Lemma none_price_raises :
  filter_by_criteria (SimpleRAG [unpriced_widget])
    {| min_price := Some (Fin 5); max_price := None; min_rating := None;
       available_only := None |}
  = Raise AttributeError.
Proof. vm_compute. reflexivity. Qed.

(** With [available_only] true, the availability block keeps the flag
    exactly when the lower-cased text holds neither phrase; an absent key
    reads as the empty text and passes. *)
Lemma availability_block_text c p text :
  available_only c = Some true →
  get_or_empty (availability p) = PyStr text →
  availability_block c p true
  = Ok (negb (str_contains "out of stock" (str_lower text)
              || str_contains "unavailable" (str_lower text))).
Proof.
  intros Hc Hp. unfold availability_block, as_receiver. rewrite Hc, Hp. simpl.
  by destruct (_ || _).
Qed.

Lemma missing_availability_passes c p :
  availability p = Missing → availability_block c p true = Ok true.
Proof.
  intros Hp. unfold availability_block, as_receiver. rewrite Hp.
  by destruct (available_only c) as [[]|].
Qed.

(** On a collection without [None] fields the filter with
    [available_only] true keeps exactly the records whose availability
    text holds neither phrase and that pass the price and rating
    constraints. *)
Lemma available_only_keeps R c :
  available_only c = Some true → Forall texts_present R →
  ∃ out, filter_by_criteria (SimpleRAG R) c = Ok out
    ∧ ∀ p, p ∈ out ↔
        p ∈ R
        ∧ (∃ text, get_or_empty (availability p) = PyStr text
             ∧ str_contains "out of stock" (str_lower text) = false
             ∧ str_contains "unavailable" (str_lower text) = false)
        ∧ price_block c p true = Ok true
        ∧ rating_block c p true = Ok true.
Proof.
  intros Hc Hall.
  destruct (filter_by_criteria_returns R c Hall) as [out Hout].
  exists out. split; [done|].
  apply filter_by_criteria_spec in Hout as [-> _]. intros p.
  rewrite list_elem_of_In, filter_In, <- list_elem_of_In.
  split.
  - intros [Hin Hpass]. split; [done|].
    rewrite Forall_forall in Hall. destruct (Hall p Hin) as (_ & _ & Ha).
    assert (∃ text, get_or_empty (availability p) = PyStr text) as [text Ht].
    { destruct (availability p); simpl; [eauto|done|eauto]. }
    unfold passes in Hpass. rewrite matches_blocks in Hpass.
    rewrite (availability_block_text c p text Hc Ht) in Hpass.
    destruct (price_block c p true) as [b1|]; simpl in Hpass; [|done].
    destruct (rating_block c p true) as [b2|]; simpl in Hpass; [|done].
    apply andb_true_iff in Hpass as [[-> ->]%andb_true_iff Hpass].
    apply negb_true_iff, orb_false_iff in Hpass as [H1 H2]. eauto 10.
  - intros (Hin & (text & Ht & H1 & H2) & Hp & Hr). split; [done|].
    unfold passes. rewrite matches_blocks, Hp, Hr.
    rewrite (availability_block_text c p text Hc Ht), H1, H2. done.
Qed.

(** C7, failing input: a record as the scraper builds it when the page
    shows no availability text.  [product.get('availability', '')] is
    [None], whose [lower] attribute does not exist. *)
Theorem none_availability_raises :
  filter_by_criteria (SimpleRAG [priced_widget])
    {| min_price := None; max_price := None; min_rating := None;
       available_only := Some true |}
  = Raise AttributeError.
Proof. vm_compute. reflexivity. Qed.

(** C8: when the criteria are tightened in one bound and the filter
    returns under the tighter criteria, it returns under the looser ones
    too, and the tighter output is a sublist of the looser output, hence no
    longer. *)
Theorem tightening_never_grows R c1 c2 out2 :
  tightens c1 c2 →
  filter_by_criteria (SimpleRAG R) c2 = Ok out2 →
  ∃ out1, filter_by_criteria (SimpleRAG R) c1 = Ok out1
          ∧ out2 `sublist_of` out1
          ∧ length out2 ≤ length out1.
Proof.
  intros Ht [-> Hall]%filter_by_criteria_spec.
  exists (List.filter (passes c1) R).
  assert (Hsub : List.filter (passes c2) R `sublist_of` List.filter (passes c1) R).
  { apply filter_permits_more. intros p. unfold passes.
    pose proof (tightens_permits_more c1 c2 p Ht) as Hp.
    destruct (matches c2 p) as [b2|]; [|done].
    destruct (Hp b2 eq_refl) as (b1 & -> & Hb). done. }
  split; [|split; [done|by apply sublist_length]].
  apply filter_by_criteria_spec. split; [done|].
  eapply Forall_impl; [exact Hall|]. intros p [b2 Hb2].
  destruct (tightens_permits_more c1 c2 p Ht b2 Hb2) as (b1 & Hb1 & _).
  by exists b1.
Qed.

Lemma tightening_never_grows_witness :
  ∃ out1,
    filter_by_criteria (SimpleRAG [widget; gadget])
      {| min_price := Some (Fin 5); max_price := None; min_rating := None;
         available_only := None |} = Ok out1
    ∧ [gadget] `sublist_of` out1
    ∧ length [gadget] ≤ length out1.
Proof.
  apply (tightening_never_grows [widget; gadget]
           {| min_price := Some (Fin 5); max_price := None; min_rating := None;
              available_only := None |}
           {| min_price := Some (Fin 20); max_price := None; min_rating := None;
              available_only := None |}).
  - apply (tighten_min_price
             {| min_price := Some (Fin 5); max_price := None; min_rating := None;
                available_only := None |} (Fin 20)).
    reflexivity.
  - vm_compute. reflexivity.
Defined.

End FilterTheorems.

(** ** Theorems on the intent analyzer *)

Section Intent.

Implicit Types (q sub : string).

Lemma prefix_lower sub q :
  String.prefix sub q = true →
  String.prefix (str_lower sub) (str_lower q) = true.
Proof.
  revert q. induction sub as [|a sub IH]; intros [|b q]; simpl; try done.
  destruct (ascii_dec a b) as [->|]; [|done].
  intros H. destruct (ascii_dec (lower_char b) (lower_char b)); [by apply IH|done].
Qed.

(** Lower-casing the query keeps the occurrences of a lower-case phrase. *)
Lemma str_contains_lower sub q :
  str_lower sub = sub →
  str_contains sub q = true → str_contains sub (str_lower q) = true.
Proof.
  intros Hsub. induction q as [|b q IH]; cbn [str_contains str_lower].
  - done.
  - destruct (String.prefix sub (String b q)) eqn:E.
    + apply prefix_lower in E. rewrite Hsub in E. cbn [str_lower] in E.
      by rewrite E.
    + intros H%IH. rewrite H.
      by destruct (String.prefix sub (String (lower_char b) (str_lower q))).
Qed.

(** Containment is occurrence as a contiguous part. *)
Lemma append_cons c (s t : string) : String c s +:+ t = String c (s +:+ t).
Proof. done. Qed.

Lemma append_assoc (s t u : string) : (s +:+ t) +:+ u = s +:+ (t +:+ u).
Proof. induction s as [|c s IH]; [done|]. by rewrite !append_cons, IH. Qed.

Lemma append_empty_r (s : string) : s +:+ "" = s.
Proof. induction s as [|c s IH]; [done|]. by rewrite append_cons, IH. Qed.

Lemma prefix_spec sub (s : string) :
  String.prefix sub s = true ↔ ∃ post, s = sub +:+ post.
Proof.
  revert s. induction sub as [|a sub IH]; intros [|b s]; simpl.
  - split; [by exists ""|done].
  - split; [by exists (String b s)|done].
  - split; [done|by intros [post ?]].
  - destruct (ascii_dec a b) as [->|Hne].
    + rewrite IH. split; intros [post Hp]; exists post.
      * by rewrite append_cons, <- Hp.
      * rewrite append_cons in Hp. by injection Hp.
    + split; [done|]. intros [post Hp]. rewrite append_cons in Hp.
      injection Hp as ??. done.
Qed.

Lemma str_contains_spec sub (s : string) :
  str_contains sub s = true ↔ ∃ pre post, s = pre +:+ sub +:+ post.
Proof.
  induction s as [|b s IH]; cbn [str_contains].
  - destruct (String.prefix sub "") eqn:E.
    + split; [|done]. intros _. apply prefix_spec in E as [post ->].
      by exists "", post.
    + split; [done|]. intros (pre & post & Hs).
      destruct pre as [|c pre]; [|done].
      assert (String.prefix sub "" = true); [|congruence].
      apply prefix_spec. by exists post.
  - destruct (String.prefix sub (String b s)) eqn:E.
    + split; [|done]. intros _. apply prefix_spec in E as [post ->].
      by exists "", post.
    + rewrite IH. split.
      * intros (pre & post & ->). by exists (String b pre), post.
      * intros (pre & post & Hs). destruct pre as [|c pre].
        -- assert (String.prefix sub (String b s) = true); [|congruence].
           apply prefix_spec. by exists post.
        -- rewrite append_cons in Hs. injection Hs as -> ->. by exists pre, post.
Qed.

Lemma price_bound_returns prefix q : ∃ b, price_bound prefix q = Ok b.
Proof.
  unfold price_bound. destruct (search_amount prefix q) as [d|] eqn:E; [|eauto].
  destruct (float_of_amount _ _ _ E) as [x ->]. simpl. eauto.
Qed.

(** The analyzer returns; [sort_by] and [available_only] are what the
    phrase tests on the lower-cased query assign. *)
Lemma analyze_query_intent_returns q :
  ∃ i, analyze_query_intent q = Ok i
       ∧ sort_by i = rating_intent (str_lower q) (price_intent (str_lower q))
       ∧ intent_available_only i
         = if any_in available_phrases (str_lower q) then Some true else None.
Proof.
  unfold analyze_query_intent.
  destruct (price_bound_returns "under " (str_lower q)) as [mx ->].
  destruct (price_bound_returns "over " (str_lower q)) as [mn ->].
  simpl. eauto.
Qed.

(** C9: when the lower-cased query holds a price phrase and a rating
    phrase, [sort_by] is the value of the rating tests: [rating_desc] for
    a quality phrase, otherwise [rating_asc]. *)
Theorem rating_intent_overrides_price_intent q :
  any_in cheap_phrases (str_lower q) || any_in expensive_phrases (str_lower q) = true →
  any_in best_phrases (str_lower q) || any_in worst_phrases (str_lower q) = true →
  ∃ i, analyze_query_intent q = Ok i
       ∧ sort_by i = Some (if any_in best_phrases (str_lower q)
                           then rating_desc else rating_asc).
Proof.
  intros _ Hr. destruct (analyze_query_intent_returns q) as (i & Hi & Hs & _).
  exists i. split; [done|]. rewrite Hs. unfold rating_intent.
  destruct (any_in best_phrases (str_lower q)) eqn:Eb; [done|].
  apply orb_true_iff in Hr as [Hr|Hr]; [done|]. by rewrite Hr.
Qed.

Lemma rating_intent_overrides_price_intent_witness :
  ∃ i, analyze_query_intent "Cheapest of the worst rated phones" = Ok i
       ∧ sort_by i = Some rating_asc.
Proof.
  destruct (rating_intent_overrides_price_intent "Cheapest of the worst rated phones")
    as (i & Hi & Hs).
  - vm_compute. reflexivity.
  - vm_compute. reflexivity.
  - exists i. split; [exact Hi|exact Hs].
Defined.

(** C10: [available_only] is set to [True] exactly when the lower-cased
    query holds one of the phrases "available", "in stock", "buy now" as a
    contiguous part, and is left unset otherwise.  The tests are substring
    tests: a query that holds "available" inside a longer word, as
    "unavailable" does, sets it. *)
Theorem available_substring_sets_available_only q :
  ∃ i, analyze_query_intent q = Ok i
       ∧ (intent_available_only i = Some true
          ↔ ∃ phrase pre post,
              phrase ∈ ["available"; "in stock"; "buy now"]
              ∧ str_lower q = pre +:+ phrase +:+ post)
       ∧ (intent_available_only i = Some true ∨ intent_available_only i = None)
       ∧ (∀ pre post, q = pre +:+ "available" +:+ post →
                      intent_available_only i = Some true).
Proof.
  destruct (analyze_query_intent_returns q) as (i & Hi & _ & Ha).
  exists i. split; [done|]. rewrite Ha.
  assert (Hany : any_in available_phrases (str_lower q) = true
                 ↔ ∃ phrase pre post,
                     phrase ∈ ["available"; "in stock"; "buy now"]
                     ∧ str_lower q = pre +:+ phrase +:+ post).
  { unfold any_in. rewrite existsb_exists. split.
    - intros (phrase & Hin & (pre & post & Hq)%str_contains_spec).
      exists phrase, pre, post. split; [|done]. by apply list_elem_of_In.
    - intros (phrase & pre & post & Hin & Hq). exists phrase.
      split; [by apply list_elem_of_In|]. apply str_contains_spec. eauto. }
  split; [|split].
  - rewrite <- Hany.
    destruct (any_in available_phrases (str_lower q)); split; done.
  - destruct (any_in available_phrases (str_lower q)); [by left|by right].
  - intros pre post Hq.
    assert (Hc : str_contains "available" (str_lower q) = true).
    { apply str_contains_lower; [done|]. apply str_contains_spec. eauto. }
    assert (any_in available_phrases (str_lower q) = true) as ->; [|done].
    unfold any_in, available_phrases. simpl. by rewrite Hc.
Qed.

Lemma available_substring_sets_available_only_witness :
  (∃ i, analyze_query_intent "unavailable" = Ok i
        ∧ intent_available_only i = Some true)
  ∧ (∃ i, analyze_query_intent "Is it AVAILABLE?" = Ok i
          ∧ intent_available_only i = Some true).
Proof.
  split.
  - destruct (available_substring_sets_available_only "unavailable")
      as (i & Hi & _ & _ & H).
    exists i. split; [exact Hi|]. apply (H "un" ""). reflexivity.
  - destruct (available_substring_sets_available_only "Is it AVAILABLE?")
      as (i & Hi & [_ H] & _).
    exists i. split; [exact Hi|]. apply H.
    exists "available", "is it ", "?". split; [|reflexivity].
    apply list_elem_of_here.
Defined.

End Intent.

(** * Further properties of the code *)

(** ** Lower case *)

Section LowerCase.

Implicit Types (s t : string).

Lemma lower_char_idem c : lower_char (lower_char c) = lower_char c.
Proof. destruct c as [[] [] [] [] [] [] [] []]; reflexivity. Qed.

Lemma str_lower_idem s : str_lower (str_lower s) = str_lower s.
Proof. induction s as [|c s IH]; simpl; [done|]. by rewrite lower_char_idem, IH. Qed.

Lemma str_lower_app s t : str_lower (s +:+ t) = str_lower s +:+ str_lower t.
Proof. induction s as [|c s IH]; simpl; [done|]. by rewrite IH. Qed.

Lemma findall_words_from_lower cur s :
  str_lower cur = cur → str_lower s = s →
  Forall (λ w, str_lower w = w) (findall_words_from cur s).
Proof.
  revert cur. induction s as [|c s IH]; intros cur Hcur Hs; simpl.
  - destruct (String.eqb cur ""); by repeat constructor.
  - simpl in Hs. injection Hs as Hc Hs.
    destruct (is_word c).
    + apply IH; [|done]. rewrite str_lower_app, Hcur. simpl. by rewrite Hc.
    + apply Forall_app. split; [|by apply IH].
      destruct (String.eqb cur ""); by repeat constructor.
Qed.

(** The tokens of a lower-cased text are lower-case. *)
Lemma findall_words_lower s :
  Forall (λ w, str_lower w = w) (findall_words (str_lower s)).
Proof. apply findall_words_from_lower; [done|apply str_lower_idem]. Qed.

End LowerCase.

(** ** The keys and postings of the index *)

Section IndexKeys.

Implicit Types (keyword_index : gmap string (list nat)) (ps : list product).

Lemma before_app {A : Type} (x y : A) (l1 l2 : list A) :
  before x y (l1 ++ l2) ↔
  before x y l1 ∨ (x ∈ l1 ∧ y ∈ l2) ∨ before x y l2.
Proof.
  induction l1 as [|z l1 IH]; simpl.
  - split; [by auto|]. intros [?%before_nil|[[?%elem_of_nil _]|?]]; done.
  - rewrite !before_cons, IH, elem_of_app, !elem_of_cons. tauto.
Qed.

Lemma postings_from_sorted ps i w a b :
  before a b (postings_from i ps w) → a ≤ b.
Proof.
  revert i. induction ps as [|p ps IH]; intros i; simpl.
  - by intros ?%before_nil.
  - intros [Hb|[[Ha Hb]|Hb]]%before_app.
    + destruct Hb as (j1 & j2 & _ & H1 & H2).
      apply list_elem_of_lookup_2, elem_of_replicate in H1 as [-> _].
      apply list_elem_of_lookup_2, elem_of_replicate in H2 as [-> _]. done.
    + apply elem_of_replicate in Ha as [-> _].
      apply postings_from_bounds in Hb. lia.
    + by apply (IH (S i)).
Qed.

Lemma index_word_keys i keyword_index word :
  str_lower word = word → keys_well_formed keyword_index →
  keys_well_formed (index_word i keyword_index word).
Proof.
  intros Hlow Hinv w l. unfold index_word.
  destruct (Nat.ltb_spec 2 (String.length word)) as [Hlen|_]; [|apply Hinv].
  destruct (decide (word = w)) as [->|Hne].
  - rewrite lookup_insert_eq. intros [= <-]. repeat split; [done..|].
    by destruct (default [] (keyword_index !! w)).
  - rewrite lookup_insert_ne by done. apply Hinv.
Qed.

Lemma fold_index_word_keys i ws keyword_index :
  Forall (λ w, str_lower w = w) ws → keys_well_formed keyword_index →
  keys_well_formed (fold_left (index_word i) ws keyword_index).
Proof.
  intros Hws. revert keyword_index.
  induction Hws as [|w ws Hw _ IH]; intros keyword_index Hinv; simpl; [done|].
  by apply IH, index_word_keys.
Qed.

Lemma index_products_keys ps i keyword_index :
  keys_well_formed keyword_index →
  keys_well_formed (index_products i ps keyword_index).
Proof.
  revert i keyword_index.
  induction ps as [|p ps IH]; intros i keyword_index Hinv; simpl; [done|].
  apply IH, fold_index_word_keys; [apply findall_words_lower|done].
Qed.

Lemma extract_keywords_keys ps : keys_well_formed (extract_keywords ps).
Proof. apply index_products_keys. intros w l. by rewrite lookup_empty. Qed.

Lemma occurrences_pos w p : 0 < occurrences w p ↔ w ∈ keywords_of p.
Proof.
  unfold occurrences. rewrite list_elem_of_In.
  symmetry. apply (count_occ_In string_dec).
Qed.

End IndexKeys.

(** X1: the postings of a word hold position [i] exactly as often as the word
    occurs among the indexed words of record [i], so [i] is in the postings
    exactly when record [i] has the word; positions of no record are in no
    postings list. *)
Theorem postings_count_occurrences (R : list product) (word : string) (i : nat) :
  (∀ p, R !! i = Some p →
        count_occ Nat.eq_dec (postings (extract_keywords R) word) i
        = occurrences word p)
  ∧ (i ∈ postings (extract_keywords R) word ↔
     ∃ p, R !! i = Some p ∧ word ∈ keywords_of p).
Proof.
  rewrite extract_keywords_postings.
  assert (Hc : ∀ p, R !! i = Some p →
             count_occ Nat.eq_dec (postings_from 0 R word) i = occurrences word p).
  { intros p Hp. apply (postings_from_count R 0 word i p Hp). }
  split; [done|]. split.
  - intros Hi. pose proof (postings_from_bounds _ _ _ _ Hi) as [_ Hlt].
    apply lookup_lt_is_Some_2 in Hlt as [p Hp]. exists p. split; [done|].
    apply occurrences_pos. rewrite <- (Hc p Hp).
    by apply (count_occ_In Nat.eq_dec), list_elem_of_In.
  - intros (p & Hp & Hw). apply list_elem_of_In, (count_occ_In Nat.eq_dec).
    rewrite (Hc p Hp). by apply occurrences_pos.
Qed.

Lemma postings_count_occurrences_witness :
  count_occ Nat.eq_dec (postings (extract_keywords [sturdy_widget]) "widget") 0
  = occurrences "widget" sturdy_widget.
Proof.
  destruct (postings_count_occurrences [sturdy_widget] "widget" 0) as [H _].
  apply H. reflexivity.
Defined.

(** X2: every key of the index is a lower-case word longer than two
    characters, and its postings list is non-empty and in non-decreasing
    order of position. *)
Theorem index_keys_well_formed (R : list product) (word : string) (l : list nat) :
  extract_keywords R !! word = Some l →
  2 < String.length word ∧ str_lower word = word ∧ l ≠ []
  ∧ ∀ a b, before a b l → a ≤ b.
Proof.
  intros Hl. destruct (extract_keywords_keys R word l Hl) as (H1 & H2 & H3).
  repeat split; [done..|]. intros a b Hb.
  assert (Hp : postings (extract_keywords R) word = l).
  { unfold postings. by rewrite Hl. }
  rewrite extract_keywords_postings in Hp. subst l.
  by apply postings_from_sorted in Hb.
Qed.

Lemma index_keys_well_formed_witness :
  2 < String.length "widget" ∧ str_lower "widget" = "widget" ∧ [0; 0] ≠ []
  ∧ ∀ a b, before a b [0; 0] → a ≤ b.
Proof.
  apply (index_keys_well_formed [sturdy_widget] "widget" [0; 0]).
  vm_compute. reflexivity.
Defined.

(** ** What the scorer returns *)

Section ScorerResults.

Implicit Types (R : list product) (Q : string) (k : Z) (c : list (nat * nat)).

Lemma counter_incr_positive c i :
  Forall (λ e, 1 ≤ snd e) c → Forall (λ e, 1 ≤ snd e) (counter_incr c i).
Proof.
  induction 1 as [|[k' v] c Hv Hc IH]; simpl.
  - repeat constructor.
  - destruct (k' =? i); constructor; simpl in *; (done || lia).
Qed.

Lemma accumulate_positive keyword_index ws c :
  Forall (λ e, 1 ≤ snd e) c →
  Forall (λ e, 1 ≤ snd e) (fold_left (score_word keyword_index) ws c).
Proof.
  revert c. induction ws as [|w ws IH]; intros c Hc; simpl; [done|].
  apply IH. unfold score_word. destruct (keyword_index !! w) as [l|]; [|done].
  clear IH. revert c Hc. induction l as [|i l IHl]; intros c Hc; simpl; [done|].
  by apply IHl, counter_incr_positive.
Qed.

Lemma scores_positive self Q e : e ∈ scores self Q → 1 ≤ snd e.
Proof.
  intros He. pose proof (accumulate_positive (keywords self) (query_words Q) []
                           (Forall_nil_2 _)) as H.
  rewrite Forall_forall in H. by apply H.
Qed.

(** The counter holds the match count of every record. *)
Lemma scores_get R Q i p :
  R !! i = Some p → counter_get (scores (SimpleRAG R) Q) i = match_count Q p.
Proof.
  intros Hp. unfold scores, accumulate_scores.
  rewrite counter_get_accumulate. simpl.
  unfold match_count. generalize (query_words Q) as ws.
  induction ws as [|w ws IH]; simpl; [done|].
  pose proof (postings_from_count R 0 w i p Hp) as Hw. simpl in Hw.
  rewrite extract_keywords_postings, Hw. lia.
Qed.

Lemma counter_get_entry_of c i :
  0 < counter_get c i → (i, counter_get c i) ∈ c.
Proof.
  induction c as [|[k' v] c IH]; simpl; [lia|].
  destruct (Nat.eqb_spec k' i) as [->|_]; [left|]. intros H. right. by apply IH.
Qed.

(** A record with a positive match count has its entry in the counter. *)
Lemma scores_entry R Q i p :
  R !! i = Some p → 0 < match_count Q p →
  (i, match_count Q p) ∈ scores (SimpleRAG R) Q.
Proof.
  intros Hp Hm. rewrite <- (scores_get R Q i p Hp) in *.
  by apply counter_get_entry_of.
Qed.

Lemma take_before_drop {A : Type} (n : nat) (l : list A) (x y : A) :
  x ∈ take n l → y ∈ drop n l → before x y l.
Proof.
  intros Hx Hy. rewrite <- (take_drop n l). apply before_app. auto.
Qed.

Lemma sorted_desc_take_drop c n x y :
  x ∈ take n (sorted_desc c) → y ∈ drop n (sorted_desc c) → snd y ≤ snd x.
Proof.
  intros Hx Hy. apply (sorted_desc_sorted c). by apply (take_before_drop n).
Qed.

(** An entry of the counter is ranked, or counts no more than any ranked
    entry. *)
Lemma ranking_best self Q k x y :
  x ∈ ranking self Q k → y ∈ scores self Q →
  y ∈ ranking self Q k ∨ snd y ≤ snd x.
Proof.
  unfold ranking, most_common. fold (query_words Q). fold (scores self Q).
  destruct (k <=? 0)%Z; [by intros ?%elem_of_nil|].
  intros Hx Hy%sorted_desc_elem.
  rewrite <- (take_drop (Z.to_nat k) (sorted_desc (scores self Q))) in Hy.
  apply elem_of_app in Hy as [Hy|Hy]; [by left|right].
  by apply (sorted_desc_take_drop (scores self Q) (Z.to_nat k)).
Qed.

(** An annotated result comes from a ranked entry. *)
Lemma annotated_from_ranking R Q k out sp s :
  retrieve_relevant_products (SimpleRAG R) Q k = Ok out →
  sp ∈ out → relevance_score sp = Some s →
  ∃ i, (i, s) ∈ ranking (SimpleRAG R) Q k ∧ R !! i = Some (record sp).
Proof.
  intros Hret Hsp Hs.
  destruct (retrieve_shape R Q k) as (top & Hall & Heq).
  rewrite Heq in Hret. injection Hret as <-.
  destruct top as [|sp0 top].
  { apply list_elem_of_fmap in Hsp as (p & -> & _). done. }
  apply list_elem_of_lookup in Hsp as (n & Hn).
  destruct (Forall2_lookup_r _ _ _ _ _ Hall Hn) as ([i s'] & He & Hi & Hs').
  simpl in Hi, Hs'. rewrite Hs in Hs'. injection Hs' as ->.
  exists i. split; [|done]. apply list_elem_of_lookup. eauto.
Qed.

(** A ranked entry is returned as an annotated copy. *)
Lemma ranking_returned R Q k out i s :
  retrieve_relevant_products (SimpleRAG R) Q k = Ok out →
  (i, s) ∈ ranking (SimpleRAG R) Q k →
  ∃ sp, sp ∈ out ∧ R !! i = Some (record sp) ∧ relevance_score sp = Some s.
Proof.
  intros Hret (n & Hn)%list_elem_of_lookup.
  destruct (retrieve_shape R Q k) as (top & Hall & Heq).
  rewrite Heq in Hret. injection Hret as <-.
  destruct (Forall2_lookup_l _ _ _ _ _ Hall Hn) as (sp & Hsp & Hi & Hs).
  simpl in Hi, Hs. exists sp. split; [|done].
  destruct top as [|sp0 top]; [done|]. apply list_elem_of_lookup. eauto.
Qed.

(** The entry at a place of the ranking is returned at the same place, as
    the copy of the record at its position with its count as score. *)
Lemma ranking_returned_at R Q k out n i s p :
  retrieve_relevant_products (SimpleRAG R) Q k = Ok out →
  ranking (SimpleRAG R) Q k !! n = Some (i, s) → R !! i = Some p →
  out !! n = Some {| record := p; relevance_score := Some s |}.
Proof.
  intros Hret Hn Hp.
  destruct (retrieve_shape R Q k) as (top & Hall & Heq).
  rewrite Heq in Hret. injection Hret as <-.
  destruct (Forall2_lookup_l _ _ _ _ _ Hall Hn) as (sp & Hsp & Hi & Hs).
  simpl in Hi, Hs. destruct top as [|sp0 top]; [done|].
  rewrite Hsp. destruct sp as [r rs]. simpl in *. congruence.
Qed.

End ScorerResults.

(** ** Theorems on the scorer's results *)

(** X3: every returned record is a record of the collection, and either every
    returned record carries a [relevance_score] of at least 1 or none
    carries one. *)
Theorem results_are_records (R : list product) (Q : string) (k : Z)
    (out : list scored_product) :
  retrieve_relevant_products (SimpleRAG R) Q k = Ok out →
  Forall (λ sp, record sp ∈ R) out
  ∧ (Forall (λ sp, ∃ s, relevance_score sp = Some s ∧ 1 ≤ s) out
     ∨ Forall (λ sp, relevance_score sp = None) out).
Proof.
  intros Hret.
  destruct (retrieve_shape R Q k) as (top & Hall & Heq).
  rewrite Heq in Hret. injection Hret as <-.
  destruct top as [|sp0 top].
  - split; [|right; by apply Forall_fmap, Forall_forall].
    apply Forall_fmap, Forall_forall. intros p Hp. simpl.
    unfold slice_to in Hp. destruct (0 <=? k)%Z;
      apply list_elem_of_lookup in Hp as (n & Hn);
      apply lookup_take_Some in Hn as [Hn _];
      apply list_elem_of_lookup; eauto.
  - split; [|left]; apply Forall_forall; intros sp (n & Hn)%list_elem_of_lookup;
      destruct (Forall2_lookup_r _ _ _ _ _ Hall Hn) as ([i s] & He & Hi & Hs);
      simpl in Hi, Hs.
    + apply list_elem_of_lookup. eauto.
    + exists s. split; [done|].
      apply (scores_positive (SimpleRAG R) Q (i, s)).
      apply (ranking_elem _ Q k), list_elem_of_lookup. eauto.
Qed.

Lemma results_are_records_witness :
  Forall (λ sp, record sp ∈ [widget; gadget])
    [ {| record := widget; relevance_score := Some 1 |} ]
  ∧ (Forall (λ sp, ∃ s, relevance_score sp = Some s ∧ 1 ≤ s)
       [ {| record := widget; relevance_score := Some 1 |} ]
     ∨ Forall (λ sp, relevance_score sp = None)
         [ {| record := widget; relevance_score := Some 1 |} ]).
Proof.
  apply (results_are_records [widget; gadget] "cheap widget" 5).
  vm_compute. reflexivity.
Defined.

(** X4: the returned records are the best, position by position: for every
    position of the collection, either that position is ranked and the
    result holds, at the place of its rank, the copy of its record with its
    match count as score, or its match count is no more than the score of
    any returned record.  Equal records at two positions are told apart by
    their places in the ranking. *)
Theorem ranking_is_optimal (R : list product) (Q : string) (k : Z)
    (out : list scored_product) (sp : scored_product) (s i : nat) (p : product) :
  retrieve_relevant_products (SimpleRAG R) Q k = Ok out →
  sp ∈ out → relevance_score sp = Some s →
  R !! i = Some p →
  (∃ n, ranking (SimpleRAG R) Q k !! n = Some (i, match_count Q p)
        ∧ out !! n = Some {| record := p;
                             relevance_score := Some (match_count Q p) |})
  ∨ match_count Q p ≤ s.
Proof.
  intros Hret Hsp Hs Hp.
  destruct (decide (0 < match_count Q p)) as [Hm|]; [|right; lia].
  destruct (annotated_from_ranking R Q k out sp s Hret Hsp Hs) as (j & Hj & _).
  destruct (ranking_best _ _ _ _ _ Hj (scores_entry R Q i p Hp Hm)) as [Hi|Hle];
    [left|by right].
  apply list_elem_of_lookup in Hi as (n & Hn).
  exists n. split; [done|]. by apply (ranking_returned_at R Q k out n i).
Qed.

Lemma ranking_is_optimal_witness :
  (∃ n, ranking (SimpleRAG [sturdy_widget; sturdy_widget; widget]) "widget" 2 !! n
        = Some (1, match_count "widget" sturdy_widget)
        ∧ [ {| record := sturdy_widget; relevance_score := Some 2 |};
            {| record := sturdy_widget; relevance_score := Some 2 |} ] !! n
          = Some {| record := sturdy_widget;
                    relevance_score := Some (match_count "widget" sturdy_widget) |})
  ∨ match_count "widget" sturdy_widget ≤ 2.
Proof.
  apply (ranking_is_optimal [sturdy_widget; sturdy_widget; widget] "widget" 2
           [ {| record := sturdy_widget; relevance_score := Some 2 |};
             {| record := sturdy_widget; relevance_score := Some 2 |} ]
           {| record := sturdy_widget; relevance_score := Some 2 |} 2 1
           sturdy_widget).
  - vm_compute. reflexivity.
  - left.
  - reflexivity.
  - reflexivity.
Defined.

(** X5: when [top_k] is at least the size of the collection, every position
    whose record matches the query is ranked, and the result holds, at the
    place of its rank, the copy of its record with its match count as
    score.  Two positions have two places, so equal records at two
    positions are returned twice. *)
Theorem all_matches_returned (R : list product) (Q : string) (k : Z)
    (out : list scored_product) (i : nat) (p : product) :
  retrieve_relevant_products (SimpleRAG R) Q k = Ok out →
  (Z.of_nat (length R) <= k)%Z →
  R !! i = Some p → 0 < match_count Q p →
  ∃ n, ranking (SimpleRAG R) Q k !! n = Some (i, match_count Q p)
       ∧ out !! n = Some {| record := p;
                            relevance_score := Some (match_count Q p) |}.
Proof.
  intros Hret Hk Hp Hm.
  assert (Hin : (i, match_count Q p) ∈ ranking (SimpleRAG R) Q k).
  { unfold ranking, most_common. fold (query_words Q). fold (scores (SimpleRAG R) Q).
    pose proof (lookup_lt_Some _ _ _ Hp) as Hlt.
    destruct (Z.leb_spec k 0); [lia|].
    rewrite take_ge.
    - by apply sorted_desc_elem, (scores_entry R Q i p).
    - rewrite sorted_desc_length. pose proof (scores_length R Q). lia. }
  apply list_elem_of_lookup in Hin as (n & Hn).
  exists n. split; [done|]. by apply (ranking_returned_at R Q k out n i).
Qed.

Lemma all_matches_returned_witness :
  ∃ n, ranking (SimpleRAG [widget; widget]) "widget" 2 !! n
       = Some (1, match_count "widget" widget)
       ∧ [ {| record := widget; relevance_score := Some 1 |};
           {| record := widget; relevance_score := Some 1 |} ] !! n
         = Some {| record := widget;
                   relevance_score := Some (match_count "widget" widget) |}.
Proof.
  apply (all_matches_returned [widget; widget] "widget" 2 _ 1 widget).
  - vm_compute. reflexivity.
  - vm_compute. discriminate.
  - reflexivity.
  - vm_compute. lia.
Defined.

(** X6: a query whose tokens all have at most two characters matches nothing:
    the result is the unannotated slice of the collection. *)
Theorem short_tokens_fall_back (R : list product) (Q : string) (k : Z) :
  Forall (λ w, String.length w ≤ 2) (query_words Q) →
  retrieve_relevant_products (SimpleRAG R) Q k
  = Ok (map unannotated (slice_to R k)).
Proof.
  intros Hshort.
  assert (Hnone : Forall (λ w, extract_keywords R !! w = None) (query_words Q)).
  { eapply Forall_impl; [exact Hshort|]. intros w Hw. simpl in Hw.
    destruct (extract_keywords R !! w) as [l|] eqn:E; [|done].
    destruct (extract_keywords_keys R w l E) as (Hlen & _). lia. }
  unfold retrieve_relevant_products, ranking, accumulate_scores. simpl.
  fold (query_words Q). rewrite (accumulate_no_key _ _ _ Hnone).
  by rewrite most_common_nil.
Qed.

Lemma short_tokens_fall_back_witness :
  retrieve_relevant_products (SimpleRAG [widget; gadget]) "is it in or of 5?" 1
  = Ok [unannotated widget].
Proof.
  apply (short_tokens_fall_back [widget; gadget] "is it in or of 5?" 1).
  vm_compute. repeat constructor.
Defined.

(** ** Case and the scorer *)

Section CaseInsensitive.

Lemma str_lower_join (parts : list string) :
  str_lower (join_space parts) = join_space (map str_lower parts).
Proof.
  induction parts as [|a [|b parts] IH]; [done..|].
  change (join_space (a :: b :: parts)) with (a +:+ " " +:+ join_space (b :: parts)).
  rewrite !str_lower_app, IH. done.
Qed.

Lemma truthy_text_lower (f : field) :
  truthy_text (get_or_empty (lower_field f))
  = str_lower <$> truthy_text (get_or_empty f).
Proof. destruct f as [| |[|c s]]; done. Qed.

Lemma omap_truthy_lower (fs : list field) :
  omap truthy_text (map (λ f, get_or_empty (lower_field f)) fs)
  = map str_lower (omap truthy_text (map get_or_empty fs)).
Proof.
  induction fs as [|f fs IH]; [done|].
  unfold omap in *. cbn [map list_omap]. rewrite truthy_text_lower, IH.
  by destruct (truthy_text (get_or_empty f)).
Qed.

Lemma combined_text_lower (p : product) :
  combined_text (lower_product p) = combined_text p.
Proof.
  unfold combined_text.
  change ([get_or_empty (name (lower_product p));
           get_or_empty (description (lower_product p));
           get_or_empty (price (lower_product p));
           get_or_empty (rating (lower_product p));
           get_or_empty (availability (lower_product p))])
    with (map (λ f, get_or_empty (lower_field f))
            [name p; description p; price p; rating p; availability p]).
  change ([get_or_empty (name p); get_or_empty (description p);
           get_or_empty (price p); get_or_empty (rating p);
           get_or_empty (availability p)])
    with (map get_or_empty [name p; description p; price p; rating p; availability p]).
  rewrite omap_truthy_lower, <- str_lower_join. apply str_lower_idem.
Qed.

Lemma index_products_lower (R : list product) (i : nat)
    (keyword_index : gmap string (list nat)) :
  index_products i (map lower_product R) keyword_index
  = index_products i R keyword_index.
Proof.
  revert i keyword_index. induction R as [|p R IH]; intros i keyword_index; [done|].
  cbn [map index_products]. unfold words_of. by rewrite combined_text_lower, IH.
Qed.

End CaseInsensitive.

(** X7: matching ignores case: lower-casing the texts of the records leaves
    the index unchanged, and lower-casing the query as well leaves the
    ranked positions and scores unchanged. *)
Theorem matching_ignores_case (R : list product) (Q : string) (k : Z) :
  extract_keywords (map lower_product R) = extract_keywords R
  ∧ ranking (SimpleRAG (map lower_product R)) (str_lower Q) k
    = ranking (SimpleRAG R) Q k.
Proof.
  assert (H : extract_keywords (map lower_product R) = extract_keywords R)
    by apply index_products_lower.
  split; [done|]. unfold ranking. simpl. by rewrite H, str_lower_idem.
Qed.

(** ** simple_retrieve *)

(** X8: [simple_retrieve] answers the empty collection with the empty list,
    and a non-empty collection with between one and five records, never
    more than the collection has. *)
Theorem simple_retrieve_size (products : list product) (user_query : string) :
  ∃ out, simple_retrieve products user_query = Ok out
         ∧ (products = [] → out = [])
         ∧ (products ≠ [] → 1 ≤ length out ≤ Nat.min 5 (length products)).
Proof.
  destruct products as [|p0 ps]; [exists []; by split|].
  destruct (retrieve_shape (p0 :: ps) user_query 5) as (top & Hall & Heq).
  eexists. split; [exact Heq|]. split; [done|]. intros _.
  destruct top as [|sp top].
  - rewrite length_fmap, slice_to_length by lia. simpl. lia.
  - apply Forall2_length in Hall. rewrite <- Hall. split; [simpl in Hall; lia|].
    unfold ranking. rewrite most_common_length by lia.
    pose proof (scores_length (p0 :: ps) user_query) as Hlen.
    unfold scores, query_words in Hlen. lia.
Qed.

Lemma simple_retrieve_size_witness :
  ∃ out, simple_retrieve [widget; gadget] "anything" = Ok out
         ∧ 1 ≤ length out ≤ Nat.min 5 (length [widget; gadget]).
Proof.
  destruct (simple_retrieve_size [widget; gadget] "anything") as (out & H & _ & Hlen).
  exists out. split; [exact H|]. apply Hlen. discriminate.
Defined.

(** ** The numbers that [float] yields *)

Section Amounts.

Lemma round_half_even_nonneg (n d : Z) :
  (0 <= n)%Z → (0 < d)%Z → (0 <= round_half_even n d)%Z.
Proof.
  intros Hn Hd. unfold round_half_even.
  assert (0 <= n / d)%Z by (apply Z.div_pos; lia).
  destruct (2 * (n mod d) ?= d)%Z; [destruct (Z.even _)|..]; lia.
Qed.

Lemma binary64_of_ratio_amount (n d : Z) :
  (0 <= n)%Z → (0 < d)%Z → is_amount (binary64_of_ratio n d).
Proof.
  intros Hn Hd. unfold binary64_of_ratio.
  destruct (n =? 0)%Z; [simpl; apply Qle_refl|].
  set (e := if (_ <? _)%Z then _ else _).
  set (ex := Z.max (e - 52) (-1074)).
  assert (Hm : (0 <= round_half_even (n * 2 ^ Z.max 0 (- ex))
                         (d * 2 ^ Z.max 0 ex))%Z).
  { apply round_half_even_nonneg.
    - apply Z.mul_nonneg_nonneg; [done|]. apply Z.pow_nonneg. lia.
    - apply Z.mul_pos_pos; [done|]. apply Z.pow_pos_nonneg; lia. }
  set (m := round_half_even _ _) in *.
  destruct (Z.leb_spec 0 ex) as [Hex|Hex].
  - destruct (2 ^ 1024 <=? m * 2 ^ ex)%Z; [done|]. simpl.
    unfold Qle. simpl. assert (0 <= 2 ^ ex)%Z by (apply Z.pow_nonneg; lia). nia.
  - simpl. unfold Qle. simpl. lia.
Qed.

Lemma digits_value_nonneg (acc : Z) (s : string) :
  (0 <= acc)%Z → (0 <= digits_value acc s)%Z.
Proof.
  revert acc. induction s as [|c s IH]; intros acc Hacc; simpl; [done|].
  apply IH. unfold digit_value. lia.
Qed.

Lemma parse_decimal_nonneg (s : string) (n k : Z) :
  parse_decimal s = Some (n, k) → (0 <= n)%Z ∧ (0 <= k)%Z.
Proof.
  unfold parse_decimal. destruct (span is_digit s) as [whole rest].
  destruct (String.eqb whole ""); [done|].
  destruct rest as [|c rest].
  - intros [= <- <-]. split; [by apply digits_value_nonneg|done].
  - destruct (Ascii.eqb_spec c ".") as [->|Hc].
    + destruct (span is_digit rest) as [fd rest'].
      destruct (String.eqb rest' ""); [|done].
      intros [= <- <-]. split; [by apply digits_value_nonneg|lia].
    + intros H. exfalso.
      destruct c as [[] [] [] [] [] [] [] []]; try discriminate H. by apply Hc.
Qed.

(** [float] of a number text is never negative and never NaN. *)
Lemma to_float_amount (s : string) (x : num) : to_float s = Ok x → is_amount x.
Proof.
  unfold to_float, float_of_string.
  destruct (parse_decimal s) as [[n k]|] eqn:E; [|done].
  intros [= <-]. apply parse_decimal_nonneg in E as [Hn Hk].
  apply binary64_of_ratio_amount; [done|]. apply Z.pow_pos_nonneg; lia.
Qed.

(** Below a bound that lies above another, or above that other. *)
Lemma num_between (x a b : num) :
  is_amount x → num_lt b a = true → num_lt x a = true ∨ num_lt b x = true.
Proof.
  destruct x as [q| | |]; simpl; try done; intros _.
  - destruct a as [qa| | |], b as [qb| | |]; simpl; try done; auto.
    rewrite !Qltb_lt. intros Hba.
    destruct (Qlt_le_dec q qa) as [?|Hle]; [by left|right].
    by apply (Qlt_le_trans _ qa).
  - destruct a as [qa| | |], b as [qb| | |]; simpl; try done; auto.
Qed.

End Amounts.

(** ** More on the criteria filter *)

Section FilterMore.

Implicit Types (R : list product) (c : criteria) (p : product).

Lemma List_filter_sublist {A : Type} (f : A → bool) (l : list A) :
  List.filter f l `sublist_of` l.
Proof.
  induction l as [|x l IH]; simpl; [done|].
  destruct (f x); [by apply sublist_skip|by apply sublist_cons].
Qed.

Lemma List_filter_filter {A : Type} (f g : A → bool) (l : list A) :
  List.filter f (List.filter g l) = List.filter (λ x, g x && f x) l.
Proof.
  induction l as [|x l IH]; simpl; [done|].
  destruct (g x); simpl; [|done]. destruct (f x); by rewrite IH.
Qed.

Lemma List_filter_idem {A : Type} (f : A → bool) (l : list A) :
  List.filter f (List.filter f l) = List.filter f l.
Proof.
  rewrite List_filter_filter. apply filter_ext. intros x. by destruct (f x).
Qed.

(** Whether the loop body returns depends on the inspected fields only. *)
Lemma matches_returns_iff c p : returns (matches c p) ↔ inspected_present c p.
Proof.
  rewrite matches_blocks. unfold inspected_present. split.
  - intros [b Hb]. repeat split.
    + intros Hc Hp. unfold price_block, as_receiver in Hb. by rewrite Hc, Hp in Hb.
    + intros Hc Hp. unfold rating_block, as_subject in Hb. rewrite Hc, Hp in Hb.
      by destruct (price_block c p true).
    + intros Hc Hp. unfold availability_block, as_receiver in Hb.
      rewrite Hc, Hp in Hb.
      destruct (price_block c p true); [|done].
      by destruct (rating_block c p true).
  - intros (Hp & Hr & Ha).
    assert (H1 : returns (price_block c p true)).
    { unfold price_block, as_receiver.
      destruct (_ || _); [|by eexists]. specialize (Hp eq_refl).
      destruct (price p) as [| |text]; simpl; [by eexists|done|].
      destruct (search_price_number _) as [m|] eqn:E; [|by eexists].
      destruct (float_of_price_number text m E) as [x ->]. by eexists. }
    assert (H2 : returns (rating_block c p true)).
    { unfold rating_block, as_subject.
      destruct (has_key (min_rating c)) eqn:Ec; [|by eexists].
      first [specialize (Hr eq_refl)|specialize (Hr Ec)].
      destruct (rating p) as [| |text]; simpl; [by eexists|done|].
      destruct (search_rating_number _) as [m|] eqn:E; [|by eexists].
      destruct (float_of_rating_number text m E) as [x ->]. by eexists. }
    assert (H3 : returns (availability_block c p true)).
    { unfold availability_block, as_receiver.
      destruct (available_only c) as [[]|] eqn:Ec; try by eexists.
      first [specialize (Ha eq_refl)|specialize (Ha Ec)].
      destruct (availability p) as [| |text]; simpl; [by eexists|done|].
      destruct (str_contains "out of stock" (str_lower text)
                || str_contains "unavailable" (str_lower text)); by eexists. }
    destruct H1 as [b1 ->], H2 as [b2 ->], H3 as [b3 ->]. by eexists.
Qed.

Lemma passes_blocks c p b1 b2 b3 :
  price_block c p true = Ok b1 → rating_block c p true = Ok b2 →
  availability_block c p true = Ok b3 →
  passes c p = b1 && b2 && b3.
Proof. intros H1 H2 H3. unfold passes. by rewrite matches_blocks, H1, H2, H3. Qed.

Lemma matches_returns_blocks c p :
  returns (matches c p) →
  ∃ b1 b2 b3, price_block c p true = Ok b1 ∧ rating_block c p true = Ok b2
              ∧ availability_block c p true = Ok b3.
Proof.
  rewrite matches_blocks. intros [b Hb].
  destruct (price_block c p true) as [b1|]; [|done].
  destruct (rating_block c p true) as [b2|]; [|done].
  destruct (availability_block c p true) as [b3|]; [|done].
  by exists b1, b2, b3.
Qed.

End FilterMore.

(** X9: the filter returns exactly when no record has [None] in a field that
    the criteria make it read: the price with a price bound, the rating
    with [min_rating], the availability with [available_only] true.
    Otherwise it raises. *)
Theorem filter_returns_iff (R : list product) (c : criteria) :
  returns (filter_by_criteria (SimpleRAG R) c) ↔ Forall (inspected_present c) R.
Proof.
  split.
  - intros [out [_ Hall]%filter_by_criteria_spec].
    eapply Forall_impl; [exact Hall|]. intros p. apply matches_returns_iff.
  - intros Hall. eexists. apply filter_by_criteria_spec. split; [done|].
    eapply Forall_impl; [exact Hall|]. intros p. apply matches_returns_iff.
Qed.

(** X10: the output of the filter is a sublist of the collection: the kept
    records in their original order, never more than were given. *)
Theorem filter_output_sublist (R : list product) (c : criteria)
    (out : list product) :
  filter_by_criteria (SimpleRAG R) c = Ok out →
  out `sublist_of` R ∧ length out ≤ length R.
Proof.
  intros [-> _]%filter_by_criteria_spec.
  pose proof (List_filter_sublist (passes c) R) as H.
  split; [done|by apply sublist_length].
Qed.

Lemma filter_output_sublist_witness :
  [gadget] `sublist_of` [widget; gadget] ∧ length [gadget] ≤ length [widget; gadget].
Proof.
  apply (filter_output_sublist [widget; gadget]
           {| min_price := Some (Fin 20); max_price := None; min_rating := None;
              available_only := None |} [gadget]).
  vm_compute. reflexivity.
Defined.

(** X11: without any bound, and with [available_only] absent or false, the
    filter returns the whole collection, whatever the fields hold. *)
Theorem unconstrained_filter_keeps_all (R : list product) (c : criteria) :
  min_price c = None → max_price c = None → min_rating c = None →
  available_only c ≠ Some true →
  filter_by_criteria (SimpleRAG R) c = Ok R.
Proof.
  intros H1 H2 H3 H4.
  assert (Hm : ∀ p, matches c p = Ok true).
  { intros p. unfold matches, price_block, rating_block, availability_block.
    rewrite H1, H2, H3. simpl. by destruct (available_only c) as [[]|]. }
  apply filter_by_criteria_spec. split.
  - induction R as [|p R IH]; simpl; [done|].
    unfold passes at 1. rewrite Hm. by rewrite <- IH.
  - apply Forall_forall. intros p _. rewrite Hm. by eexists.
Qed.

Lemma unconstrained_filter_keeps_all_witness :
  filter_by_criteria (SimpleRAG [unpriced_widget; gadget])
    {| min_price := None; max_price := None; min_rating := None;
       available_only := Some false |}
  = Ok [unpriced_widget; gadget].
Proof.
  apply unconstrained_filter_keeps_all; [reflexivity..|discriminate].
Defined.

(** X12: filtering the output of the filter again with the same criteria
    changes nothing. *)
Theorem filter_idempotent (R : list product) (c : criteria) (out : list product) :
  filter_by_criteria (SimpleRAG R) c = Ok out →
  filter_by_criteria (SimpleRAG out) c = Ok out.
Proof.
  intros [-> Hall]%filter_by_criteria_spec.
  apply filter_by_criteria_spec. split; [by rewrite List_filter_idem|].
  rewrite Forall_forall in *. intros p Hp. apply Hall.
  apply list_elem_of_In, filter_In in Hp as [Hp _]. by apply list_elem_of_In.
Qed.

Lemma filter_idempotent_witness :
  filter_by_criteria (SimpleRAG [gadget])
    {| min_price := Some (Fin 20); max_price := None; min_rating := None;
       available_only := None |}
  = Ok [gadget].
Proof.
  apply (filter_idempotent [widget; gadget]).
  vm_compute. reflexivity.
Defined.

(** X13: with [min_price] above [max_price] no record passes: the filter, when
    it returns, returns the empty list. *)
Theorem crossed_price_bounds_keep_nothing (R : list product) (c : criteria)
    (a b : num) (out : list product) :
  min_price c = Some a → max_price c = Some b → num_lt b a = true →
  filter_by_criteria (SimpleRAG R) c = Ok out →
  out = [].
Proof.
  intros Ha Hb Hba [-> _]%filter_by_criteria_spec.
  assert (Hp : ∀ p, passes c p = false).
  { intros p. unfold passes. rewrite matches_blocks.
    destruct (price_block c p true) as [b1|] eqn:E; simpl; [|done].
    assert (b1 = false) as ->.
    { unfold price_block in E. rewrite Ha, Hb in E. simpl in E.
      destruct (as_receiver (price p)) as [text|]; simpl in E; [|done].
      destruct (search_price_number _) as [m|]; [|by injection E].
      destruct (to_float m) as [x|] eqn:Ex; simpl in E; [|done].
      injection E as <-. apply to_float_amount in Ex.
      unfold num_gt. destruct (num_between x a b Ex Hba) as [->| ->]; [done|].
      apply andb_false_r. }
    destruct (rating_block c p true); simpl; [|done].
    by destruct (availability_block c p true). }
  induction R as [|p R IH]; simpl; [done|]. by rewrite Hp.
Qed.

Lemma crossed_price_bounds_keep_nothing_witness :
  filter_by_criteria (SimpleRAG [widget; gadget])
    {| min_price := Some (Fin 40); max_price := Some (Fin 20); min_rating := None;
       available_only := None |}
  = Ok [].
Proof.
  destruct (filter_by_criteria (SimpleRAG [widget; gadget])
              {| min_price := Some (Fin 40); max_price := Some (Fin 20);
                 min_rating := None; available_only := None |}) as [out|e] eqn:E.
  - f_equal.
    apply (crossed_price_bounds_keep_nothing [widget; gadget]
             {| min_price := Some (Fin 40); max_price := Some (Fin 20);
                min_rating := None; available_only := None |}
             (Fin 40) (Fin 20) out eq_refl eq_refl eq_refl E).
  - vm_compute in E. discriminate E.
Defined.

(** X14: when the filter returns under criteria with several constraints, the
    same output is reached by filtering for the price bounds, then the
    result for the rating bound, then that result for availability. *)
Theorem filter_one_constraint_at_a_time (R : list product) (c : criteria)
    (out : list product) :
  filter_by_criteria (SimpleRAG R) c = Ok out →
  ∃ o1 o2,
    filter_by_criteria (SimpleRAG R) (price_only c) = Ok o1
    ∧ filter_by_criteria (SimpleRAG o1) (rating_only c) = Ok o2
    ∧ filter_by_criteria (SimpleRAG o2) (availability_only c) = Ok out.
Proof.
  intros [-> Hall]%filter_by_criteria_spec.
  assert (Hblocks : ∀ p, p ∈ R →
    ∃ b1 b2 b3,
      passes c p = b1 && b2 && b3
      ∧ matches (price_only c) p = Ok b1
      ∧ matches (rating_only c) p = Ok b2
      ∧ matches (availability_only c) p = Ok b3).
  { rewrite Forall_forall in Hall. intros p Hp.
    destruct (matches_returns_blocks c p (Hall p Hp)) as (b1 & b2 & b3 & H1 & H2 & H3).
    exists b1, b2, b3. split; [by apply passes_blocks|].
    rewrite !matches_blocks. repeat split.
    - change (price_block (price_only c) p true) with (price_block c p true).
      rewrite H1. unfold rating_block, availability_block. simpl.
      by rewrite !andb_true_r.
    - change (rating_block (rating_only c) p true) with (rating_block c p true).
      rewrite H2. unfold price_block, availability_block. simpl.
      by rewrite andb_true_r.
    - change (availability_block (availability_only c) p true)
        with (availability_block c p true).
      rewrite H3. unfold price_block, rating_block. done. }
  exists (List.filter (passes (price_only c)) R),
         (List.filter (passes (rating_only c))
            (List.filter (passes (price_only c)) R)).
  assert (Hret : ∀ c' (l : list product),
            (∀ p, p ∈ l → p ∈ R) →
            (∀ p, p ∈ R → returns (matches c' p)) →
            filter_by_criteria (SimpleRAG l) c' = Ok (List.filter (passes c') l)).
  { intros c' l Hl Hc'. apply filter_by_criteria_spec. split; [done|].
    apply Forall_forall. auto. }
  assert (Hsub : ∀ (f : product → bool) (l : list product) p,
            p ∈ List.filter f l → p ∈ l).
  { intros f l p Hp. apply list_elem_of_In, filter_In in Hp as [Hp _].
    by apply list_elem_of_In. }
  repeat split.
  - apply Hret; [done|]. intros p Hp.
    destruct (Hblocks p Hp) as (b1 & _ & _ & _ & H1 & _). by exists b1.
  - apply Hret; [by intros p ?%Hsub|]. intros p Hp.
    destruct (Hblocks p Hp) as (_ & b2 & _ & _ & _ & H2 & _). by exists b2.
  - rewrite (Hret (availability_only c)).
    + f_equal. rewrite !List_filter_filter. apply filter_ext_in.
      intros p Hp%list_elem_of_In.
      destruct (Hblocks p Hp) as (b1 & b2 & b3 & Hc & H1 & H2 & H3).
      cbv beta. rewrite Hc. unfold passes. rewrite H1, H2, H3.
      apply andb_assoc.
    + by intros p ?%Hsub%Hsub.
    + intros p Hp.
      destruct (Hblocks p Hp) as (_ & _ & b3 & _ & _ & _ & H3). by exists b3.
Qed.

Lemma filter_one_constraint_at_a_time_witness :
  ∃ o1 o2,
    filter_by_criteria (SimpleRAG [widget; gadget])
      {| min_price := Some (Fin 5); max_price := None; min_rating := None;
         available_only := None |} = Ok o1
    ∧ filter_by_criteria (SimpleRAG o1)
        {| min_price := None; max_price := None; min_rating := Some (Fin 4);
           available_only := None |} = Ok o2
    ∧ filter_by_criteria (SimpleRAG o2)
        {| min_price := None; max_price := None; min_rating := None;
           available_only := Some true |} = Ok [widget].
Proof.
  apply (filter_one_constraint_at_a_time [widget; gadget]
           {| min_price := Some (Fin 5); max_price := None;
              min_rating := Some (Fin 4); available_only := Some true |}).
  vm_compute. reflexivity.
Defined.

(** ** Substrings *)

Section Substrings.

Implicit Types (s t sub pre post : string).

Lemma str_contains_trans sub t s :
  str_contains sub t = true → str_contains t s = true →
  str_contains sub s = true.
Proof.
  rewrite !str_contains_spec. intros (p1 & q1 & ->) (p2 & q2 & ->).
  exists (p2 +:+ p1), (q1 +:+ q2). by rewrite !append_assoc.
Qed.

Lemma substring_all s : String.substring 0 (String.length s) s = s.
Proof. induction s as [|c s IH]; simpl; [done|]. by rewrite IH. Qed.

Lemma substring_after pre s :
  String.substring (String.length pre)
    (String.length (pre +:+ s) - String.length pre) (pre +:+ s) = s.
Proof.
  induction pre as [|c pre IH].
  - change ("" +:+ s) with s. simpl. rewrite Nat.sub_0_r. apply substring_all.
  - rewrite append_cons. simpl. apply IH.
Qed.

Lemma search_amount_found prefix pre t d :
  match_amount_here prefix t = Some d →
  ∃ d', search_amount prefix (pre +:+ t) = Some d'.
Proof.
  intros Ht. induction pre as [|c pre [d' IH]].
  - change ("" +:+ t) with t. exists d.
    destruct t; cbn [search_amount]; by rewrite Ht.
  - rewrite append_cons. cbn [search_amount].
    destruct (match_amount_here prefix (String c (pre +:+ t))); [eauto|].
    by exists d'.
Qed.

(** The pattern of a price bound matches where the word, then a digit,
    stand in the text. *)
Lemma match_amount_at prefix c rest :
  is_digit c = true →
  ∃ d, match_amount_here prefix (prefix +:+ String c rest) = Some d.
Proof.
  intros Hc. unfold match_amount_here.
  assert (String.prefix prefix (prefix +:+ String c rest) = true) as ->.
  { apply prefix_spec. by eexists. }
  rewrite substring_after.
  destruct (Ascii.eqb_spec c "$") as [->|Hne]; [done|].
  assert (Hrun : ∃ run, fst (span is_digit (String c rest)) = String c run).
  { simpl. rewrite Hc. destruct (span is_digit rest). by eexists. }
  destruct Hrun as [run Hrun].
  destruct c as [[] [] [] [] [] [] [] []]; try done; rewrite Hrun; by eexists.
Qed.

End Substrings.

(** ** More on the intent analyzer *)

(** X15: the analyzer returns for every query, gives the same intent for the
    query and for its lower-cased form, and a price bound it extracts is
    never negative and never NaN. *)
Theorem intent_ignores_case (q : string) :
  ∃ i, analyze_query_intent q = Ok i
       ∧ analyze_query_intent (str_lower q) = Ok i
       ∧ (∀ x, intent_max_price i = Some x → is_amount x)
       ∧ (∀ x, intent_min_price i = Some x → is_amount x).
Proof.
  unfold analyze_query_intent. rewrite str_lower_idem.
  assert (Hb : ∀ prefix, ∃ b, price_bound prefix (str_lower q) = Ok b
                              ∧ ∀ x, b = Some x → is_amount x).
  { intros prefix. unfold price_bound.
    destruct (search_amount prefix (str_lower q)) as [d|] eqn:E.
    - destruct (float_of_amount _ _ _ E) as [x Hx]. rewrite Hx. simpl.
      eexists. split; [done|]. intros y [= <-]. by apply (to_float_amount d).
    - by exists None. }
  destruct (Hb "under ") as (mx & -> & Hmx).
  destruct (Hb "over ") as (mn & -> & Hmn). simpl.
  eexists. repeat split; simpl; done.
Qed.

Lemma intent_ignores_case_witness :
  ∃ i x, analyze_query_intent "Laptops UNDER $300" = Ok i
         ∧ analyze_query_intent (str_lower "Laptops UNDER $300") = Ok i
         ∧ intent_max_price i = Some x ∧ is_amount x.
Proof.
  destruct (intent_ignores_case "Laptops UNDER $300") as (i & H1 & H2 & Hmax & _).
  destruct (intent_max_price i) as [x|] eqn:E.
  - exists i, x. split; [exact H1|]. split; [exact H2|].
    split; [exact E|]. apply Hmax. reflexivity.
  - exfalso. vm_compute in H1. injection H1 as <-. discriminate E.
Defined.

(** X16: the entries "cheapest" and "best rating" of the phrase lists never
    decide: a query that holds one of them holds "cheap" or "best" too. *)
Theorem longer_phrases_never_decide (query_lower : string) :
  any_in cheap_phrases query_lower
  = any_in ["cheap"; "lowest price"; "budget"] query_lower
  ∧ any_in best_phrases query_lower
    = any_in ["best"; "highest rated"; "top rated"] query_lower.
Proof.
  unfold any_in, cheap_phrases, best_phrases. simpl. split.
  - destruct (str_contains "cheap" query_lower) eqn:E1; [done|]. simpl.
    destruct (str_contains "cheapest" query_lower) eqn:E2; [|done].
    rewrite (str_contains_trans "cheap" "cheapest" query_lower) in E1; done.
  - destruct (str_contains "best" query_lower) eqn:E1; [done|]. simpl.
    destruct (str_contains "best rating" query_lower) eqn:E2;
      [|by rewrite !orb_false_r].
    rewrite (str_contains_trans "best" "best rating" query_lower) in E1; done.
Qed.

(** X17: the price patterns are searched in the whole lower-cased text, not
    word by word: wherever "over " and a digit follow one another, also at
    the end of a longer word, [min_price] is set, and likewise [max_price]
    for "under ". *)
Theorem price_words_match_inside_words (q pre rest : string) (c : ascii) :
  is_digit c = true →
  (str_lower q = pre +:+ "over " +:+ String c rest →
   ∃ i x, analyze_query_intent q = Ok i ∧ intent_min_price i = Some x)
  ∧ (str_lower q = pre +:+ "under " +:+ String c rest →
     ∃ i x, analyze_query_intent q = Ok i ∧ intent_max_price i = Some x).
Proof.
  intros Hc.
  assert (Hb : ∀ prefix, str_lower q = pre +:+ prefix +:+ String c rest →
               ∃ x, price_bound prefix (str_lower q) = Ok (Some x)).
  { intros prefix Hq. unfold price_bound.
    destruct (match_amount_at prefix c rest Hc) as [d Hd].
    destruct (search_amount_found prefix pre _ d Hd) as [d' Hd'].
    rewrite Hq, Hd'.
    destruct (float_of_amount _ _ _ Hd') as [x ->]. by exists x. }
  assert (Ha : ∀ prefix, ∃ b, price_bound prefix (str_lower q) = Ok b).
  { intros prefix. apply price_bound_returns. }
  unfold analyze_query_intent. split; intros Hq.
  - destruct (Ha "under ") as [mx ->]. destruct (Hb "over " Hq) as [x ->].
    simpl. by eexists _, x.
  - destruct (Hb "under " Hq) as [x ->]. destruct (Ha "over ") as [mn ->].
    simpl. by eexists _, x.
Qed.

Lemma price_words_match_inside_words_witness :
  ∃ i x, analyze_query_intent "Discover 5 gadgets" = Ok i
         ∧ intent_min_price i = Some x.
Proof.
  destruct (price_words_match_inside_words "Discover 5 gadgets" "disc" " gadgets" "5")
    as [H _].
  - reflexivity.
  - apply H. reflexivity.
Defined.

(** ** clean_text *)

Section CleanText.

Implicit Types (s : string) (f g : ascii → bool).

Lemma space_not_word c : is_space c = true → is_word c = false.
Proof. destruct c as [[] [] [] [] [] [] [] []]; done. Qed.

Lemma kept_plain_clean c :
  is_kept c = true → plain_space c = true → is_clean_char c = true.
Proof. destruct c as [[] [] [] [] [] [] [] []]; done. Qed.

Lemma collapse_from_plain b s : string_forall plain_space (collapse_from b s) = true.
Proof.
  revert b. induction s as [|c s IH]; intros b; simpl; [done|].
  destruct (is_space c) eqn:E.
  - destruct b; simpl; by rewrite ?IH.
  - simpl. unfold plain_space at 1. by rewrite E, IH.
Qed.

Lemma lstrip_forall f s :
  string_forall f s = true → string_forall f (lstrip s) = true.
Proof.
  induction s as [|c s IH]; simpl; [done|].
  intros [Hc Hs]%andb_true_iff. destruct (is_space c); [by apply IH|].
  simpl. by rewrite Hc, Hs.
Qed.

Lemma rstrip_forall f s :
  string_forall f s = true → string_forall f (rstrip s) = true.
Proof.
  induction s as [|c s IH]; simpl; [done|].
  intros [Hc Hs]%andb_true_iff.
  destruct (is_space c && String.eqb (rstrip s) ""); [done|].
  simpl. by rewrite Hc, IH.
Qed.

Lemma keep_chars_forall f g s :
  string_forall g s = true →
  string_forall (λ c, f c && g c) (keep_chars f s) = true.
Proof.
  induction s as [|c s IH]; simpl; [done|].
  intros [Hc Hs]%andb_true_iff. destruct (f c) eqn:E; [|by apply IH].
  simpl. by rewrite E, Hc, IH.
Qed.

Lemma string_forall_impl f g s :
  (∀ c, f c = true → g c = true) →
  string_forall f s = true → string_forall g s = true.
Proof.
  intros Hfg. induction s as [|c s IH]; simpl; [done|].
  intros [Hc Hs]%andb_true_iff. by rewrite (Hfg c Hc), IH.
Qed.

Lemma collapse_from_words b s :
  keep_chars is_word (collapse_from b s) = keep_chars is_word s.
Proof.
  revert b. induction s as [|c s IH]; intros b; simpl; [done|].
  destruct (is_space c) eqn:E.
  - rewrite (space_not_word c E). destruct b; simpl; by rewrite IH.
  - simpl. by rewrite IH.
Qed.

Lemma lstrip_words s : keep_chars is_word (lstrip s) = keep_chars is_word s.
Proof.
  induction s as [|c s IH]; simpl; [done|].
  destruct (is_space c) eqn:E; [|done]. by rewrite (space_not_word c E).
Qed.

Lemma rstrip_words s : keep_chars is_word (rstrip s) = keep_chars is_word s.
Proof.
  induction s as [|c s IH]; simpl; [done|].
  destruct (is_space c) eqn:E; simpl.
  - rewrite (space_not_word c E).
    destruct (String.eqb_spec (rstrip s) "") as [Hr|_]; simpl.
    + by rewrite <- IH, Hr.
    + by rewrite (space_not_word c E).
  - by rewrite IH.
Qed.

Lemma keep_kept_words s :
  keep_chars is_word (keep_chars is_kept s) = keep_chars is_word s.
Proof.
  induction s as [|c s IH]; simpl; [done|].
  destruct (is_kept c) eqn:E; simpl; [by rewrite IH|].
  assert (is_word c = false) as ->; [|done].
  unfold is_kept in E. by destruct (is_word c).
Qed.

Lemma clean_text_nonempty (text : option string) s :
  clean_text text = Some s → s ≠ "".
Proof.
  destruct text as [t|]; [|done]. unfold clean_text.
  destruct (String.eqb t ""); [done|].
  destruct (String.eqb_spec (keep_chars is_kept (strip (collapse_spaces t))) "")
    as [|Hne]; [done|].
  by intros [= <-].
Qed.

Lemma clean_text_chars (text : option string) s :
  clean_text text = Some s → string_forall is_clean_char s = true.
Proof.
  destruct text as [t|]; [|done]. unfold clean_text.
  destruct (String.eqb t ""); [done|].
  destruct (String.eqb (keep_chars is_kept (strip (collapse_spaces t))) "");
    [done|].
  intros [= <-].
  apply (string_forall_impl (λ c, is_kept c && plain_space c)).
  { intros c [??]%andb_true_iff. by apply kept_plain_clean. }
  apply keep_chars_forall. unfold strip, collapse_spaces.
  apply rstrip_forall, lstrip_forall, collapse_from_plain.
Qed.

End CleanText.

(** X18: [clean_text] answers [None] and the empty string with [None], and a
    text it returns is never empty.  Of a text of ASCII characters it
    returns only word characters, plain spaces and the characters
    [. - $ % ( )], so no tab or line break.  (Beyond ASCII the pattern
    keeps more: the euro and the pound sign, and the letters and digits of
    other scripts.) *)
Theorem clean_text_shape (t s : string) :
  clean_text None = None ∧ clean_text (Some "") = None
  ∧ (clean_text (Some t) = Some s → s ≠ "")
  ∧ (ascii_text t = true → clean_text (Some t) = Some s →
     string_forall is_clean_char s = true).
Proof.
  split; [done|]. split; [done|]. split.
  - apply clean_text_nonempty.
  - intros _. apply clean_text_chars.
Qed.

Lemma clean_text_shape_witness :
  "Widget 2.0 (new)" ≠ "" ∧ string_forall is_clean_char "Widget 2.0 (new)" = true.
Proof.
  destruct (clean_text_shape
              (String (ascii_of_nat 9) "Widget   2.0! (new) ")
              "Widget 2.0 (new)") as (_ & _ & H1 & H2).
  split.
  - apply H1. vm_compute. reflexivity.
  - apply H2; vm_compute; reflexivity.
Defined.

(** X19: [clean_text] never drops, adds or reorders a letter, a digit or an
    underscore: the word characters of the result are those of the text, in
    the same order. *)
Theorem clean_text_keeps_word_chars (text : string) :
  keep_chars is_word (cleaned text) = keep_chars is_word text.
Proof.
  unfold cleaned, clean_text.
  destruct (String.eqb_spec text "") as [->|_]; [done|].
  assert (H : keep_chars is_word (keep_chars is_kept (strip (collapse_spaces text)))
              = keep_chars is_word text).
  { unfold strip, collapse_spaces.
    by rewrite keep_kept_words, rstrip_words, lstrip_words, collapse_from_words. }
  destruct (String.eqb_spec (keep_chars is_kept (strip (collapse_spaces text))) "")
    as [He|_]; simpl; [|done].
  by rewrite <- H, He.
Qed.

(** ** extract_price and extract_rating *)

Section Extraction.

Lemma remove_commas_idem (s : string) :
  remove_commas (remove_commas s) = remove_commas s.
Proof.
  induction s as [|c s IH]; simpl; [done|].
  destruct (Ascii.eqb c ",") eqn:E; simpl; [done|]. by rewrite E, IH.
Qed.

End Extraction.

(** X20: [extract_price] never raises; it answers [None] and the empty string
    with [None], and a number it returns is never negative and never NaN:
    a sign before the digits is not read. *)
Theorem extract_price_amount (price_text : option string) :
  ∃ r, extract_price price_text = Ok r
       ∧ (price_text = None ∨ price_text = Some "" → r = None)
       ∧ (∀ x, r = Some x → is_amount x).
Proof.
  destruct price_text as [t|]; simpl.
  2:{ exists None. by repeat split. }
  destruct (String.eqb_spec t "") as [->|Hne].
  { exists None. by repeat split. }
  destruct (search_price_number (remove_commas t)) as [m|] eqn:E.
  - destruct (float_of_price_number t m E) as [x Hx]. rewrite Hx. simpl.
    exists (Some x). repeat split.
    + intros [?|[= ->]]; done.
    + intros y [= <-]. by apply (to_float_amount m).
  - exists None. by repeat split.
Qed.

Lemma extract_price_amount_witness :
  ∃ r, extract_price (Some "$-5.00") = Ok r ∧ (∀ x, r = Some x → is_amount x).
Proof.
  destruct (extract_price_amount (Some "$-5.00")) as (r & Hr & _ & Ha).
  exists r. split; [exact Hr|exact Ha].
Defined.

(** X21: [extract_rating] never raises; it answers [None] and the empty string
    with [None], and a number it returns is never negative and never
    NaN. *)
Theorem extract_rating_amount (rating_text : option string) :
  ∃ r, extract_rating rating_text = Ok r
       ∧ (rating_text = None ∨ rating_text = Some "" → r = None)
       ∧ (∀ x, r = Some x → is_amount x).
Proof.
  destruct rating_text as [t|]; simpl.
  2:{ exists None. by repeat split. }
  destruct (String.eqb_spec t "") as [->|Hne].
  { exists None. by repeat split. }
  destruct (search_rating_number t) as [m|] eqn:E.
  - destruct (float_of_rating_number t m E) as [x Hx]. rewrite Hx. simpl.
    exists (Some x). repeat split.
    + intros [?|[= ->]]; done.
    + intros y [= <-]. by apply (to_float_amount m).
  - exists None. by repeat split.
Qed.

Lemma extract_rating_amount_witness :
  ∃ r, extract_rating (Some "4.5 out of 5") = Ok r
       ∧ (∀ x, r = Some x → is_amount x).
Proof.
  destruct (extract_rating_amount (Some "4.5 out of 5")) as (r & Hr & _ & Ha).
  exists r. split; [exact Hr|exact Ha].
Defined.

(** X22: commas never matter to [extract_price]: the text and the text
    without its commas give the same result, so a comma is a thousands
    separator wherever it stands. *)
Theorem extract_price_ignores_commas (t : string) :
  extract_price (Some t) = extract_price (Some (remove_commas t)).
Proof.
  unfold extract_price. rewrite remove_commas_idem.
  destruct (String.eqb_spec t "") as [->|_]; [done|].
  destruct (String.eqb_spec (remove_commas t) "") as [->|_]; done.
Qed.

(** X23: the price test of the filter and [extract_price] read a price text
    alike: with a price bound set, a record whose price is a text, or
    absent, passes the test exactly when [extract_price] finds a number
    within the bounds.  They part on [None]: [extract_price] returns
    [None], the filter raises [AttributeError]. *)
Theorem price_block_agrees_with_extract_price (c : criteria) (p : product) :
  has_key (min_price c) || has_key (max_price c) = true →
  (∀ t, get_or_empty (price p) = PyStr t →
     price_block c p true
     = (r ← extract_price (Some t);
        Ok (match r with
            | Some x => negb (below (min_price c) x) && negb (above (max_price c) x)
            | None => false
            end)))
  ∧ (price p = PyNone →
     extract_price None = Ok None ∧ price_block c p true = Raise AttributeError).
Proof.
  intros Hc. split.
  - intros t Ht. unfold price_block, as_receiver, extract_price. rewrite Hc, Ht.
    simpl. destruct (String.eqb_spec t "") as [->|_]; [done|].
    destruct (search_price_number (remove_commas t)) as [m|]; [|done].
    by destruct (to_float m).
  - intros Hp. split; [done|].
    unfold price_block, as_receiver. by rewrite Hc, Hp.
Qed.

Lemma price_block_agrees_with_extract_price_witness :
  price_block {| min_price := Some (Fin 20); max_price := None;
                 min_rating := None; available_only := None |} widget true
  = (r ← extract_price (Some "$10.00");
     Ok (match r with
         | Some x => negb (below (Some (Fin 20)) x) && negb (above None x)
         | None => false
         end)).
Proof.
  destruct (price_block_agrees_with_extract_price
              {| min_price := Some (Fin 20); max_price := None;
                 min_rating := None; available_only := None |} widget) as [H _].
  - reflexivity.
  - apply (H "$10.00"). reflexivity.
Defined.

(** X24: the rating test of the filter and [extract_rating] read a rating text
    alike: with [min_rating] set, a record whose rating is a text, or
    absent, passes the test exactly when [extract_rating] finds a number
    not below the bound.  They part on [None]: [extract_rating] returns
    [None], the filter raises [TypeError]. *)
Theorem rating_block_agrees_with_extract_rating (c : criteria) (p : product) :
  has_key (min_rating c) = true →
  (∀ t, get_or_empty (rating p) = PyStr t →
     rating_block c p true
     = (r ← extract_rating (Some t);
        Ok (match r with
            | Some x => negb (below (min_rating c) x)
            | None => false
            end)))
  ∧ (rating p = PyNone →
     extract_rating None = Ok None ∧ rating_block c p true = Raise TypeError).
Proof.
  intros Hc. split.
  - intros t Ht. unfold rating_block, as_subject, extract_rating. rewrite Hc, Ht.
    simpl. destruct (String.eqb_spec t "") as [->|_]; [done|].
    destruct (search_rating_number t) as [m|]; [|done].
    by destruct (to_float m).
  - intros Hp. split; [done|].
    unfold rating_block, as_subject. by rewrite Hc, Hp.
Qed.

Lemma rating_block_agrees_with_extract_rating_witness :
  rating_block {| min_price := None; max_price := None;
                  min_rating := Some (Fin 4); available_only := None |} widget true
  = (r ← extract_rating (Some "4.5 out of 5");
     Ok (match r with
         | Some x => negb (below (Some (Fin 4)) x)
         | None => false
         end)).
Proof.
  destruct (rating_block_agrees_with_extract_rating
              {| min_price := None; max_price := None;
                 min_rating := Some (Fin 4); available_only := None |} widget) as [H _].
  - reflexivity.
  - apply (H "4.5 out of 5"). reflexivity.
Defined.

(** ** The scraper's records *)

Section ScraperProperties.

Context {soup card : Type}.
Variable select : soup → string → list card.
Variable select_one_text : card → string → option string.

Lemma field_of_clean_text (text : option string) :
  scraped_field (field_of (clean_text text)).
Proof.
  destruct (clean_text text) as [s|] eqn:E; simpl; [|by left].
  right. exists s. split; [done|]. by apply (clean_text_nonempty text).
Qed.

Lemma extract_product_info_scraped (c : card) :
  Forall scraped_field (fields_of (extract_product_info select_one_text c)).
Proof.
  unfold fields_of, extract_product_info. simpl.
  repeat (apply Forall_cons; split; [apply field_of_clean_text|]).
  apply Forall_nil_2.
Qed.

Lemma truthy_text_field (f : field) :
  truthy f = true → ∃ s, f = PyStr s ∧ s ≠ "".
Proof.
  destruct f as [| |s]; try done. unfold truthy. simpl.
  destruct (String.eqb_spec s ""); [done|]. by exists s.
Qed.

Lemma truthy_named (p : product) : truthy (name p) = true ↔ named p.
Proof.
  split; [apply truthy_text_field|].
  intros (s & -> & Hs). unfold truthy. simpl.
  by destruct (String.eqb_spec s "").
Qed.

(** The loop that keeps the records with a truthy name. *)
Lemma named_records (cs : list card) :
  List.filter (fun product => truthy (name product))
    (map (extract_product_info select_one_text) cs)
  = extract_product_info select_one_text
    <$> filter (λ c, named (extract_product_info select_one_text c)) cs.
Proof.
  induction cs as [|c cs IH]; [done|].
  rewrite filter_cons. cbn [map List.filter]. rewrite IH.
  destruct (decide (named (extract_product_info select_one_text c)))
    as [Hn|Hn].
  - by rewrite (proj2 (truthy_named _) Hn).
  - destruct (truthy (name (extract_product_info select_one_text c))) eqn:E;
      [|done].
    by apply truthy_named in E.
Qed.

Lemma select_products_first (page : soup) (selectors : list string) :
  first_selected select page selectors (select_products select page selectors).
Proof.
  induction selectors as [|selector rest IH]; simpl.
  - left. split; [done|]. by intros ? ?%elem_of_nil.
  - destruct (select page selector) as [|e es] eqn:E.
    + destruct IH as [[Hnil Hall]|(earlier & sel & later & -> & Hall & Hsel & Hne)].
      * left. split; [done|]. intros ? [->|?]%elem_of_cons; auto.
      * right. exists (selector :: earlier), sel, later.
        repeat split; [|done..].
        intros ? [->|?]%elem_of_cons; auto.
    + right. exists [], selector, rest.
      repeat split; [by intros ? ?%elem_of_nil|done..].
Qed.

End ScraperProperties.

(** X25: a record built by [extract_product_info] has all five keys, and
    each holds [None] or a non-empty text, never the empty string; so the
    default of [product.get(key, '')] is never used on such a record. *)
Theorem extract_product_info_fields {card : Type}
    (select_one_text : card → string → option string) (c : card) :
  Forall (λ f, f = PyNone ∨ ∃ s, f = PyStr s ∧ s ≠ "")
    (fields_of (extract_product_info select_one_text c))
  ∧ Forall (λ f, get_or_empty f = f)
      (fields_of (extract_product_info select_one_text c)).
Proof.
  pose proof (extract_product_info_scraped select_one_text c) as H.
  split; [done|]. eapply Forall_impl; [exact H|].
  intros f [->|(s & -> & _)]; done.
Qed.

(** X26: the scraper takes the elements of the first selector of its list
    that selects any (none when no selector does), and returns the records
    of the first twenty of them that have a name, one for each such
    element and in page order.  So a record is returned exactly when it is
    built from one of these elements and has a non-empty text as name;
    every returned record has [None] or a non-empty text in every field,
    and there are at most twenty records. *)
Theorem scrape_products_shape {soup card : Type}
    (select : soup → string → list card)
    (select_one_text : card → string → option string) (page : soup) :
  ∃ elements,
    first_selected select page product_selectors elements
    ∧ scrape_products select select_one_text page
      = extract_product_info select_one_text
        <$> filter (λ c, named (extract_product_info select_one_text c))
              (take 20 elements)
    ∧ (∀ p, p ∈ scrape_products select select_one_text page
            ↔ ∃ c, c ∈ take 20 elements
                   ∧ p = extract_product_info select_one_text c
                   ∧ named p)
    ∧ Forall (λ p, Forall (λ f, f = PyNone ∨ ∃ s, f = PyStr s ∧ s ≠ "")
                     (fields_of p))
        (scrape_products select select_one_text page)
    ∧ length (scrape_products select select_one_text page) ≤ 20.
Proof.
  exists (select_products select page product_selectors).
  split; [apply select_products_first|].
  assert (Hiff : ∀ p, p ∈ scrape_products select select_one_text page
            ↔ ∃ c, c ∈ take 20 (select_products select page product_selectors)
                   ∧ p = extract_product_info select_one_text c
                   ∧ named p).
  { intros p. unfold scrape_products.
    rewrite list_elem_of_In, filter_In, in_map_iff, truthy_named. split.
    - intros [(c & <- & Hc) Hn]. exists c. by rewrite list_elem_of_In.
    - intros (c & Hc & -> & Hn). split; [|done]. exists c.
      by rewrite <- list_elem_of_In. }
  split; [|split; [exact Hiff|split]].
  - apply named_records.
  - apply Forall_forall. intros p (c & _ & -> & _)%Hiff.
    apply extract_product_info_scraped.
  - unfold scrape_products.
    etransitivity; [apply sublist_length, List_filter_sublist|].
    rewrite length_map, length_take. lia.
Qed.

Lemma scrape_products_shape_witness :
  scrape_products example_select example_text example_page
  = extract_product_info example_text
    <$> filter (λ c, named (extract_product_info example_text c))
          (take 20 example_page).
Proof.
  destruct (scrape_products_shape example_select example_text example_page)
    as (elements & Hsel & Heq & _).
  assert (elements = example_page) as ->.
  { destruct Hsel as [[_ Hnone]|(earlier & selector & later & Hl & Hnone & <- & Hne)].
    - assert (Hin : ".product" ∈ product_selectors) by (do 2 right; left).
      specialize (Hnone ".product" Hin). discriminate Hnone.
    - unfold example_select in *. destruct (String.eqb selector ".product"); done. }
  exact Heq.
Defined.

(** X27: on scraped records the filter returns exactly when every record has
    a text in each field the criteria make it read; a single record whose
    page showed no such text makes the filter raise. *)
Theorem scraped_filter_returns_iff {soup card : Type}
    (select : soup → string → list card)
    (select_one_text : card → string → option string) (page : soup)
    (c : criteria) :
  returns (filter_by_criteria
             (SimpleRAG (scrape_products select select_one_text page)) c)
  ↔ Forall (λ p,
       (has_key (min_price c) || has_key (max_price c) = true → is_text (price p))
       ∧ (has_key (min_rating c) = true → is_text (rating p))
       ∧ (available_only c = Some true → is_text (availability p)))
      (scrape_products select select_one_text page).
Proof.
  assert (Hf : ∀ p, p ∈ scrape_products select select_one_text page →
                    ∀ f, f ∈ fields_of p → f ≠ PyNone ↔ is_text f).
  { intros p Hp f Hf.
    unfold scrape_products in Hp.
    apply list_elem_of_In, filter_In in Hp as [Hp _].
    apply in_map_iff in Hp as (card0 & <- & _).
    pose proof (extract_product_info_scraped select_one_text card0) as Hall.
    rewrite Forall_forall in Hall.
    destruct (Hall f Hf) as [->|(s & -> & _)]; split; try done.
    - by intros [s Hs].
    - intros _. by exists s. }
  split.
  - intros [out [_ Hall]%filter_by_criteria_spec].
    apply Forall_forall. intros p Hp. rewrite Forall_forall in Hall.
    pose proof (Hall p Hp) as Hm.
    apply matches_returns_iff in Hm as (H1 & H2 & H3).
    assert (Hin : ∀ f, In f (fields_of p) → f ∈ fields_of p)
      by (intros f; apply list_elem_of_In).
    repeat split; intros Hc.
    + apply (Hf p Hp (price p)); [apply Hin; simpl; tauto|by apply H1].
    + apply (Hf p Hp (rating p)); [apply Hin; simpl; tauto|by apply H2].
    + apply (Hf p Hp (availability p)); [apply Hin; simpl; tauto|by apply H3].
  - intros Hall. eexists. apply filter_by_criteria_spec. split; [done|].
    apply Forall_forall. intros p Hp. rewrite Forall_forall in Hall.
    destruct (Hall p Hp) as (H1 & H2 & H3).
    assert (Hin : ∀ f, In f (fields_of p) → f ∈ fields_of p)
      by (intros f; apply list_elem_of_In).
    apply matches_returns_iff.
    repeat split; intros Hc.
    + apply (Hf p Hp (price p)); [apply Hin; simpl; tauto|by apply H1].
    + apply (Hf p Hp (rating p)); [apply Hin; simpl; tauto|by apply H2].
    + apply (Hf p Hp (availability p)); [apply Hin; simpl; tauto|by apply H3].
Qed.

Example scraped_filter_raises :
  filter_by_criteria
    (SimpleRAG (scrape_products example_select example_text example_page))
    {| min_price := None; max_price := None; min_rating := None;
       available_only := Some true |}
  = Raise AttributeError.
Proof. vm_compute. reflexivity. Qed.

Lemma scraped_examples :
  scrape_products example_select example_text example_page
  = [ {| name := PyStr "Widget"; price := PyStr "$10.00"; rating := PyNone;
         description := PyNone; availability := PyNone |};
      {| name := PyStr "Gadget"; price := PyNone; rating := PyStr "3.0 out of 5";
         description := PyNone; availability := PyStr "In Stock" |} ].
Proof. vm_compute. reflexivity. Qed.


(** ** The context text *)

Section Context.

Implicit Types (products : list product) (p : product).

Lemma product_info_lines i p :
  product_info i p
  = ("Product " +:+ pretty i +:+ ":" +:+ newline) +:+ product_lines p.
Proof. unfold product_info, product_lines. by rewrite !append_assoc. Qed.

Lemma product_infos_elem p products n :
  p ∈ products → ∃ i, product_info i p ∈ product_infos n products.
Proof.
  revert n. induction products as [|p0 ps IH]; intros n; [by intros ?%elem_of_nil|].
  intros [->|Hp]%elem_of_cons; simpl.
  - exists n. left.
  - destruct (IH (S n) Hp) as [i Hi]. exists i. by right.
Qed.

Lemma join_with_elem sep x (parts : list string) :
  x ∈ parts → ∃ pre post, join_with sep parts = pre +:+ x +:+ post.
Proof.
  induction parts as [|a [|b parts] IH].
  - by intros ?%elem_of_nil.
  - intros ->%list_elem_of_singleton. exists "", "". simpl.
    by rewrite append_empty_r.
  - intros [->|Hx]%elem_of_cons.
    + exists "", (sep +:+ join_with sep (b :: parts)). done.
    + destruct (IH Hx) as (pre & post & Hj).
      exists (a +:+ sep +:+ pre), post.
      change (join_with sep (a :: b :: parts))
        with (a +:+ sep +:+ join_with sep (b :: parts)).
      by rewrite Hj, !append_assoc.
Qed.

Lemma context_has_lines p products :
  p ∈ products →
  str_contains (product_lines p) (format_products_for_context products) = true.
Proof.
  intros Hp. apply str_contains_spec.
  destruct (product_infos_elem p products 1 Hp) as [i Hi].
  destruct (join_with_elem newline _ _ Hi) as (pre & post & Hj).
  exists (pre +:+ "Product " +:+ pretty i +:+ ":" +:+ newline), post.
  unfold format_products_for_context.
  destruct products as [|p0 ps]; [by apply elem_of_nil in Hp|].
  by rewrite Hj, product_info_lines, !append_assoc.
Qed.

Lemma context_starts products :
  products ≠ [] → ∃ t, format_products_for_context products = String "P" t.
Proof.
  destruct products as [|p0 [|p1 ps]]; [done|..]; intros _; simpl.
  - unfold product_info. rewrite append_cons. by eexists.
  - unfold product_info at 1. rewrite !append_cons. by eexists.
Qed.

Lemma simple_retrieve_nonempty products q :
  products ≠ [] → ∃ out, simple_retrieve products q = Ok out ∧ out ≠ [].
Proof.
  destruct products as [|p0 ps]; [done|]. intros _.
  destruct (retrieve_shape (p0 :: ps) q 5) as (top & Hall & Heq).
  eexists. split; [exact Heq|]. by destruct top.
Qed.

End Context.

(** X28: the context shows every product it is given: its five labelled lines
    stand in the text.  A field that is [None], as in a scraped record,
    is shown as the word None; N/A is shown for a missing key only. *)
Theorem context_shows_every_product (products : list product) (p : product) :
  p ∈ products →
  str_contains (product_lines p) (format_products_for_context products) = true
  ∧ (price p = PyNone →
     str_contains ("  Price: None" +:+ newline)
       (format_products_for_context products) = true)
  ∧ (price p = Missing →
     str_contains ("  Price: N/A" +:+ newline)
       (format_products_for_context products) = true).
Proof.
  intros Hp. pose proof (context_has_lines p products Hp) as H.
  split; [done|].
  split; intros Hprice;
    (eapply str_contains_trans; [|exact H]); apply str_contains_spec;
    unfold product_lines; rewrite Hprice; simpl.
  - exists ("  Name: " +:+ show_field (name p) +:+ newline),
           ("  Rating: " +:+ show_field (rating p) +:+ newline
            +:+ "  Description: " +:+ show_field (description p) +:+ newline
            +:+ "  Availability: " +:+ show_field (availability p) +:+ newline).
    by rewrite !append_assoc.
  - exists ("  Name: " +:+ show_field (name p) +:+ newline),
           ("  Rating: " +:+ show_field (rating p) +:+ newline
            +:+ "  Description: " +:+ show_field (description p) +:+ newline
            +:+ "  Availability: " +:+ show_field (availability p) +:+ newline).
    by rewrite !append_assoc.
Qed.

Lemma context_shows_every_product_witness :
  str_contains ("  Price: None" +:+ newline)
    (format_products_for_context [widget; unpriced_widget]) = true.
Proof.
  destruct (context_shows_every_product [widget; unpriced_widget] unpriced_widget)
    as (_ & H & _).
  - right. left.
  - apply H. reflexivity.
Defined.

(** X29: for a non-empty collection the question handler builds the context
    from the retrieved records alone: the retrieval returns at least one
    record, so the whole collection is never substituted and the text is
    never the placeholder for no products. *)
Theorem question_context_uses_retrieved (products : list product) (query : string) :
  products ≠ [] →
  ∃ out, simple_retrieve products query = Ok out
         ∧ out ≠ []
         ∧ question_context products query
           = Ok (format_products_for_context (map record out))
         ∧ format_products_for_context (map record out) ≠ "No products available.".
Proof.
  intros Hne.
  destruct (simple_retrieve_nonempty products query Hne) as (out & Hout & Hout').
  exists out. repeat split; [done..| |].
  - unfold question_context.
    destruct (analyze_query_intent_returns query) as (i & -> & _). simpl.
    rewrite Hout. simpl. by destruct out.
  - destruct (context_starts (map record out)) as [t ->]; [by destruct out|done].
Qed.

Lemma question_context_uses_retrieved_witness :
  ∃ out, simple_retrieve [widget; gadget] "cheap widget" = Ok out
         ∧ out ≠ []
         ∧ question_context [widget; gadget] "cheap widget"
           = Ok (format_products_for_context (map record out))
         ∧ format_products_for_context (map record out) ≠ "No products available.".
Proof.
  apply (question_context_uses_retrieved [widget; gadget] "cheap widget").
  discriminate.
Defined.
